(** * plasmidai: a shallow embedding of the VideoMamba encoder helpers,
    the DNA tokenisation utilities and the optimizer parameter grouping.

    Source files embedded here:
    - [src/utils.py]                          (module [Utils])
    - [src/experimental/optimizers.py]        (module [Optimizers])
    - [evo/model/utils_evo/VideoMamba.py]     (module [VideoMamba])

    The functions of torch, einops and Python that these files call are in
    the modules [Torch] and [PyDict].  The second part of the file holds
    the properties, one module of lemmas for each module of definitions.

    Tensors are a shape together with their elements in row-major order, the
    layout of a contiguous torch tensor.  Floating-point elements are modelled
    by exact rationals ([Q]); integer ([long]) elements by [Z].  Python
    exceptions are the [Raise] case of the [result] type. *)

From Stdlib Require Import QArith Qfield Qminmax Lqa Ascii String.
From stdpp Require Import base option list strings.

Local Open Scope string_scope.
Local Open Scope list_scope.
Local Open Scope nat_scope.

(** ** Exceptions and the result monad *)

Inductive exn : Type :=
| KeyError
| IndexError
| AssertionError
| AttributeError
| TypeError
| ZeroDivisionError
| EinopsError      (* einops' shape error *)
| RuntimeError     (* torch's shape and argument errors *)
| ValueError.

Inductive result (A : Type) : Type :=
| Ok (a : A)
| Raise (e : exn).
Arguments Ok {A} a.
Arguments Raise {A} e.

#[global] Instance result_ret : MRet result := fun _ a => Ok a.
#[global] Instance result_bind : MBind result := fun _ _ f r =>
  match r with
  | Ok a => f a
  | Raise e => Raise e
  end.
#[global] Instance result_fmap : FMap result := fun _ _ f r =>
  match r with
  | Ok a => Ok (f a)
  | Raise e => Raise e
  end.

(** ** Tensors *)

Record tensor (A : Type) : Type := mkTensor {
  shape : list nat;
  data : list A
}.
Arguments mkTensor {A} shape data.
Arguments shape {A} t.
Arguments data {A} t.

Definition ndim {A} (t : tensor A) : nat := length (shape t).

(** Number of elements of a shape. *)
Fixpoint numel (s : list nat) : nat :=
  match s with
  | [] => 1
  | d :: s' => d * numel s'
  end.

Definition wf_tensor {A} (t : tensor A) : Prop :=
  length (data t) = numel (shape t).

(** Row-major offset of a multi-index, and its inverse. *)
Fixpoint ravel (s idx : list nat) : nat :=
  match s, idx with
  | _ :: s', i :: idx' => i * numel s' + ravel s' idx'
  | _, _ => 0
  end.

Fixpoint unravel (s : list nat) (n : nat) : list nat :=
  match s with
  | [] => []
  | _ :: s' => (n / numel s') :: unravel s' (n mod numel s')
  end.

(** [in_range s idx]: [idx] is a valid multi-index of a tensor of shape [s]. *)
Definition in_range (s idx : list nat) : Prop := Forall2 lt idx s.

(** Element read [t[idx]]; the default is only met out of range. *)
Definition get {A} (dflt : A) (t : tensor A) (idx : list nat) : A :=
  nth (ravel (shape t) idx) (data t) dflt.

(** The tensor of shape [s] whose element at [idx] is [f idx]. *)
Definition build {A} (s : list nat) (f : list nat -> A) : tensor A :=
  mkTensor s (map (fun n => f (unravel s n)) (seq 0 (numel s))).

(** ** src/utils.py *)

Module Utils.

Definition LETTER_TO_BASES : list (ascii * string) :=
  [ ("A"%char, "A");
    ("B"%char, "CGT");
    ("C"%char, "C");
    ("D"%char, "AGT");
    ("G"%char, "G");
    ("H"%char, "ACT");
    ("K"%char, "GT");
    ("M"%char, "AC");
    ("N"%char, "ACGT");
    ("R"%char, "AG");
    ("S"%char, "CG");
    ("T"%char, "T");
    ("V"%char, "ACG");
    ("W"%char, "AT");
    ("Y"%char, "CT") ].

Definition INDEX_TO_BASE : string := "ACGT".

(** [{b: i for i, b in enumerate(INDEX_TO_BASE)}] *)
Definition BASE_TO_INDEX : list (ascii * Z) :=
  imap (fun i b => (b, Z.of_nat i)) (list_ascii_of_string INDEX_TO_BASE).

(** Dictionary subscript [d[k]]: [KeyError] when the key is absent. *)
Fixpoint dict_get {V} (d : list (ascii * V)) (k : ascii) : result V :=
  match d with
  | [] => Raise KeyError
  | (k', v) :: d' => if Ascii.eqb k' k then Ok v else dict_get d' k
  end.

(** String subscript [s[i]] with Python's negative indices. *)
Definition str_index (s : string) (i : Z) : result ascii :=
  let n := Z.of_nat (String.length s) in
  let j := (if i <? 0 then i + n else i)%Z in
  if ((0 <=? j) && (j <? n))%Z
  then match String.get (Z.to_nat j) s with
       | Some c => Ok c
       | None => Raise IndexError
       end
  else Raise IndexError.

(** The random generator: a tape of raw draws read at a position.
    [torch.randint(n, size=[1]).item()] reads one draw and reduces it to
    [0 .. n-1]; with [n = 0] torch raises. *)
Section WithTape.
Variable tape : nat -> nat.

Definition randint (n : nat) (pos : nat) : result (nat * nat) :=
  if n =? 0 then Raise RuntimeError
  else Ok (tape pos mod n, S pos).

(** The body of the loop of [dna_to_tensor]: the index appended for the
    letter [x]. *)
Definition dna_to_tensor_body (x : ascii) (pos : nat) : result (Z * nat) :=
  choices ← dict_get LETTER_TO_BASES x;
  '(i, pos') ← randint (String.length choices) pos;
  base ← str_index choices (Z.of_nat i);
  b ← dict_get BASE_TO_INDEX base;
  Ok (b, pos').

Fixpoint dna_to_tensor_loop (dna : list ascii) (sequence : list Z) (pos : nat)
  : result (list Z * nat) :=
  match dna with
  | [] => Ok (sequence, pos)
  | x :: dna' =>
      '(b, pos') ← dna_to_tensor_body x pos;
      dna_to_tensor_loop dna' (sequence ++ [b]) pos'
  end.

Definition dna_to_tensor (dna : string) (pos : nat) : result (tensor Z * nat) :=
  '(sequence, pos') ← dna_to_tensor_loop (list_ascii_of_string dna) [] pos;
  Ok (mkTensor [length sequence] sequence, pos').

Fixpoint tensor_to_dna_loop (sequence : list Z) (eos : Z) (dna : list ascii)
  : result (list ascii) :=
  match sequence with
  | [] => Ok dna
  | idx :: sequence' =>
      if (idx =? eos)%Z then Ok dna
      else c ← str_index INDEX_TO_BASE idx;
           tensor_to_dna_loop sequence' eos (dna ++ [c])
  end.

Definition tensor_to_dna (sequence : tensor Z) (eos : Z) : result string :=
  if negb (ndim sequence =? 1) then Raise AssertionError
  else if existsb (Z.eqb eos) (map snd BASE_TO_INDEX) then Raise AssertionError
  else dna ← tensor_to_dna_loop (data sequence) eos [];
       Ok (string_of_list_ascii dna).

(** [torch.roll(sequence, shifts, dims=0)] on a 1-D tensor: the elements
    shifted past the last position come back at the first. *)
Definition roll {A} (l : list A) (shifts : nat) : list A :=
  let n := length l in
  let k := shifts mod n in
  drop (n - k) l ++ take (n - k) l.

Definition random_roll {A} (sequence : tensor A) (pos : nat)
  : result (tensor A * nat) :=
  if negb (ndim sequence =? 1) then Raise AssertionError
  else '(shift, pos') ← randint (nth 0 (shape sequence) 0) pos;
       Ok (mkTensor (shape sequence) (roll (data sequence) shift), pos').

End WithTape.

(** A DNA string made of the unambiguous letters only. *)
Definition unambiguous (c : ascii) : Prop :=
  c = "A"%char \/ c = "C"%char \/ c = "G"%char \/ c = "T"%char.

(** *** Vocabulary of the properties *)

(** The index a base is encoded to. *)
Definition enc (c : ascii) : Z :=
  match dict_get BASE_TO_INDEX c with
  | Ok z => z
  | Raise _ => 0%Z
  end.

(** A base the letter [x] stands for. *)
Definition stands_for (x c : ascii) : Prop :=
  exists choices,
    dict_get LETTER_TO_BASES x = Ok choices /\
    In c (list_ascii_of_string choices).

(** The base [INDEX_TO_BASE[z]] for [-4 <= z < 4], as Python wraps a
    negative index. *)
Definition wrap_base (z : Z) : ascii :=
  nth (Z.to_nat (z mod 4)) (list_ascii_of_string INDEX_TO_BASE) "A"%char.

(** A letter that [LETTER_TO_BASES] has an entry for. *)
Definition table_letter (x : ascii) : Prop := In x (map fst LETTER_TO_BASES).

End Utils.

(** ** Python dictionaries with string keys

    A [dict] keeps its keys in insertion order; the keys of a dictionary are
    distinct ([wf_dict]). *)

Module PyDict.

Definition dict (V : Type) : Type := list (string * V).

Definition keys {V} (d : dict V) : list string := map fst d.

Definition wf_dict {V} (d : dict V) : Prop := NoDup (keys d).

(** [d.get(k)] *)
Fixpoint dict_lookup {V} (d : dict V) (k : string) : option V :=
  match d with
  | [] => None
  | (k', v) :: d' => if String.eqb k' k then Some v else dict_lookup d' k
  end.

(** [k in d] *)
Definition dict_mem {V} (d : dict V) (k : string) : bool :=
  match dict_lookup d k with Some _ => true | None => false end.

(** [d[k]] *)
Definition dict_getitem {V} (d : dict V) (k : string) : result V :=
  match dict_lookup d k with
  | Some v => Ok v
  | None => Raise KeyError
  end.

(** [d[k] = v]: an existing key keeps its place. *)
Fixpoint dict_setitem {V} (d : dict V) (k : string) (v : V) : dict V :=
  match d with
  | [] => [(k, v)]
  | (k', v') :: d' =>
      if String.eqb k' k then (k', v) :: d' else (k', v') :: dict_setitem d' k v
  end.

(** [del d[k]] *)
Fixpoint dict_delitem {V} (d : dict V) (k : string) : result (dict V) :=
  match d with
  | [] => Raise KeyError
  | (k', v') :: d' =>
      if String.eqb k' k then Ok d'
      else d'' ← dict_delitem d' k; Ok ((k', v') :: d'')
  end.

End PyDict.

(** ** The torch operations the sources call

    These are the library's functions, not the repository's; each is written
    out for every argument it can receive, with the error torch raises. *)

Module Torch.

Local Open Scope Q_scope.

(** [torch.zeros] on the unpacked [size]; without any size argument torch
    raises. *)
Definition zeros (size : list nat) : result (tensor Q) :=
  match size with
  | [] => Raise TypeError
  | _ => Ok (build size (fun _ => 0))
  end.

(** [t.unsqueeze(dim)] for [dim >= 0]: a dimension of size one is inserted
    at [dim], which may be at most [t.ndim]. *)
Definition unsqueeze {A} (dim : nat) (t : tensor A) : result (tensor A) :=
  if (dim <=? ndim t)%nat
  then Ok (mkTensor (take dim (shape t) ++ 1%nat :: drop dim (shape t)) (data t))
  else Raise IndexError.

(** [t.repeat] on the sizes given: the shape is padded with leading ones up to the
    number of sizes, and the tensor is tiled [sizes[i]] times along
    dimension [i]. *)
Definition repeat {A} (dflt : A) (sizes : list nat) (t : tensor A)
  : result (tensor A) :=
  if (length sizes <? ndim t)%nat then Raise RuntimeError
  else
    let padded := replicate (length sizes - ndim t) 1%nat ++ shape t in
    Ok (build (zip_with Nat.mul padded sizes)
          (fun idx => get dflt (mkTensor padded (data t))
                        (zip_with Nat.modulo idx padded))).

(** Whether a value of shape [v] broadcasts to the shape [s]: the shapes are
    aligned at their last dimension, and each dimension of [v] is the one of
    [s] or is one. *)
Definition broadcastable (v s : list nat) : bool :=
  (length v <=? length s)%nat &&
  forallb (fun p => (fst p =? snd p)%nat || (fst p =? 1)%nat)
          (zip v (drop (length s - length v) s)).

(** [t[:, :, m, :, :] = v]: the assignment of [inflate_weight]. *)
Definition set_slice2 {A} (dflt : A) (t : tensor A) (m : nat) (v : tensor A)
  : result (tensor A) :=
  if (ndim t <? 5)%nat then Raise IndexError
  else if (nth 2 (shape t) 0 <=? m)%nat then Raise IndexError
  else
    let slice := take 2 (shape t) ++ drop 3 (shape t) in
    if negb (broadcastable (shape v) slice) then Raise RuntimeError
    else
      Ok (build (shape t)
            (fun idx =>
               if (nth 2 idx 0 =? m)%nat
               then
                 let sidx := take 2 idx ++ drop 3 idx in
                 get dflt v (zip_with Nat.modulo
                               (drop (length sidx - ndim v) sidx) (shape v))
               else get dflt t idx)).

(** [t / n] for a Python integer [n]. *)
Definition div_scalar (t : tensor Q) (n : nat) : tensor Q :=
  mkTensor (shape t) (map (fun x => x / inject_Z (Z.of_nat n)) (data t)).

(** [t[:, :, m]]: the temporal slice at index [m]. *)
Definition select2 {A} (dflt : A) (t : tensor A) (m : nat) : tensor A :=
  build (take 2 (shape t) ++ drop 3 (shape t))
        (fun idx => get dflt t (take 2 idx ++ m :: drop 2 idx)).

(** [t.sum(dim=2)]: the sum over the temporal axis. *)
Definition sum2 (t : tensor Q) : tensor Q :=
  build (take 2 (shape t) ++ drop 3 (shape t))
        (fun idx =>
           foldr Qplus 0
                 (map (fun m => get 0 t (take 2 idx ++ m :: drop 2 idx))
                      (seq 0 (nth 2 (shape t) 0%nat)))).

(** [torch.linspace(start, end, steps)]: [steps] points from [start] to
    [end], both included; a single point is [start]. *)
Definition linspace (start stop : Q) (steps : nat) : list Q :=
  map (fun i => start + inject_Z (Z.of_nat i)
                        * ((stop - start) / inject_Z (Z.of_nat (steps - 1))))
      (seq 0 steps).

(** The shape two shapes broadcast to, aligned at the last dimension. *)
Fixpoint broadcast_rev (a b : list nat) : option (list nat) :=
  match a, b with
  | [], _ => Some b
  | _, [] => Some a
  | x :: a', y :: b' =>
      if (x =? y)%nat then cons x <$> broadcast_rev a' b'
      else if (x =? 1)%nat then cons y <$> broadcast_rev a' b'
      else if (y =? 1)%nat then cons x <$> broadcast_rev a' b'
      else None
  end.

Definition broadcast_shapes (a b : list nat) : option (list nat) :=
  match broadcast_rev (rev a) (rev b) with
  | Some s => Some (rev s)
  | None => None
  end.

(** The element of [t] that a broadcast result reads at [idx]. *)
Definition get_broadcast {A} (dflt : A) (t : tensor A) (idx : list nat) : A :=
  get dflt t (zip_with Nat.modulo (drop (length idx - ndim t) idx) (shape t)).

(** [a + b] *)
Definition add (a b : tensor Q) : result (tensor Q) :=
  match broadcast_shapes (shape a) (shape b) with
  | Some s => Ok (build s (fun idx => get_broadcast 0 a idx + get_broadcast 0 b idx))
  | None => Raise RuntimeError
  end.

(** [nn.Linear] with the given weight (of shape [[out; in]]) and bias:
    the last dimension of the input must be [in]. *)
Definition linear (weight bias : tensor Q) (x : tensor Q) : result (tensor Q) :=
  match shape weight with
  | [out_features; in_features] =>
      if (ndim x =? 0)%nat || negb (List.last (shape x) 0 =? in_features)%nat
      then Raise RuntimeError
      else
        Ok (build (removelast (shape x) ++ [out_features])
              (fun idx =>
                 foldr Qplus 0
                       (map (fun k => get 0 x (removelast idx ++ [k])
                                      * get 0 weight [List.last idx 0%nat; k])
                            (seq 0 in_features))
                 + get 0 bias [List.last idx 0%nat]))
  | _ => Raise RuntimeError
  end.

(** [einops.rearrange(x, "(b t) c -> b t c", t=t)] *)
Definition rearrange_bt_c (x : tensor Q) (t : nat) : result (tensor Q) :=
  match shape x with
  | [n; c] =>
      if (t =? 0)%nat then Raise ZeroDivisionError
      else if negb (n mod t =? 0)%nat then Raise EinopsError
      else Ok (mkTensor [n / t; t; c]%nat (data x))
  | _ => Raise EinopsError
  end.

(** Subscript of a Python list by a non-negative index. *)
Definition list_index {A} (l : list A) (i : nat) : result A :=
  match l !! i with
  | Some x => Ok x
  | None => Raise IndexError
  end.

(** [torch.utils.checkpoint.checkpoint(f, a, b)]: the value of the forward
    pass is that of [f(a, b)]; only what is kept for the backward pass
    differs. *)
Definition checkpoint {A B C} (f : A -> B -> C) (a : A) (b : B) : C := f a b.

(** *** [torch.nn.Module.load_state_dict] *)

Section LoadStateDict.
Import PyDict.

(** The message [_IncompatibleKeys(missing_keys, unexpected_keys)] that a
    successful load returns: its lists follow the module tree, which a
    state dict does not record, so it is kept abstract. *)
Variable Msg : Type.
Variable incompatible_keys : dict (tensor Q) -> dict (tensor Q) -> Msg.

(** What [Module._load_from_state_dict] does with the entry
    [input_param] of the checkpoint for the parameter [param]: a 1-D entry
    for a 0-D parameter is replaced by its first element (which an empty
    entry does not have); then the shapes are compared.  The result tells
    whether the entry is copied; otherwise a size mismatch is recorded. *)
Definition load_param (param input_param : tensor Q) : result bool :=
  match shape param, shape input_param with
  | [], [n] => if (n =? 0)%nat then Raise IndexError else Ok true
  | param_shape, input_shape => Ok (bool_decide (input_shape = param_shape))
  end.

(** The traversal of the parameters and persistent buffers of the model
    ([local_state], in the order of [state_dict()]), collecting the
    [error_msgs]; the keys the checkpoint lacks go to the message. *)
Fixpoint torch_load_from_state_dict (state_dict : dict (tensor Q))
    (local_state : dict (tensor Q)) : result (list string) :=
  match local_state with
  | [] => Ok []
  | (key, param) :: local_state' =>
      match dict_lookup state_dict key with
      | Some input_param =>
          copied ← load_param param input_param;
          error_msgs ← torch_load_from_state_dict state_dict local_state';
          Ok (if copied : bool then error_msgs else key :: error_msgs)
      | None => torch_load_from_state_dict state_dict local_state'
      end
  end.

(** [model.load_state_dict(state_dict, strict=False)] on a model whose
    [state_dict()] is [state_dict_3d]: [strict=False] tolerates missing
    and unexpected keys, but any recorded size mismatch is raised as a
    [RuntimeError]. *)
Definition torch_load_state_dict (state_dict_3d state_dict : dict (tensor Q))
  : result Msg :=
  error_msgs ← torch_load_from_state_dict state_dict state_dict_3d;
  match error_msgs with
  | [] => Ok (incompatible_keys state_dict_3d state_dict)
  | _ :: _ => Raise RuntimeError
  end.

End LoadStateDict.

End Torch.

(** ** evo/model/utils_evo/VideoMamba.py *)

Module VideoMamba.
Import Torch.

Local Open Scope Q_scope.

Definition inflate_weight (weight_2d : tensor Q) (time_dim : nat) (center : bool)
  : result (tensor Q) :=
  if center then
    weight_3d ← zeros (shape weight_2d);
    weight_3d ← unsqueeze 2 weight_3d;
    weight_3d ← repeat 0 [1; 1; time_dim; 1; 1]%nat weight_3d;
    let middle_idx := (time_dim / 2)%nat in
    set_slice2 0 weight_3d middle_idx weight_2d
  else
    weight_3d ← unsqueeze 2 weight_2d;
    weight_3d ← repeat 0 [1; 1; time_dim; 1; 1]%nat weight_3d;
    Ok (div_scalar weight_3d time_dim).

(** *** Loading a pretrained checkpoint *)

Section Loading.
Import PyDict.

(** [model.load_state_dict(state_dict, strict=False)] of the model, with
    the message it returns; for a [torch.nn.Module] it is
    [Torch.torch_load_state_dict]. *)
Variable Msg : Type.
Variable Module_load_state_dict : dict (tensor Q) -> result Msg.

Definition shape_eqb (s1 s2 : list nat) : bool :=
  bool_decide (s1 = s2).

(** The body of the loop of [load_state_dict], for the key [k]. *)
Definition load_state_dict_body (state_dict_3d : dict (tensor Q)) (center : bool)
    (state_dict : dict (tensor Q)) (k : string) : result (dict (tensor Q)) :=
  match dict_lookup state_dict_3d k with
  | None => Ok state_dict
  | Some live =>
      v ← dict_getitem state_dict k;
      if shape_eqb (shape v) (shape live) then Ok state_dict
      else if (length (shape live) <=? 3)%nat then Ok state_dict
      else
        time_dim ← list_index (shape live) 2;
        w ← inflate_weight v time_dim center;
        Ok (dict_setitem state_dict k w)
  end.

Fixpoint load_state_dict_loop (state_dict_3d : dict (tensor Q)) (center : bool)
    (ks : list string) (state_dict : dict (tensor Q)) : result (dict (tensor Q)) :=
  match ks with
  | [] => Ok state_dict
  | k :: ks' =>
      state_dict' ← load_state_dict_body state_dict_3d center state_dict k;
      load_state_dict_loop state_dict_3d center ks' state_dict'
  end.

(** The state [load_state_dict] hands to the model: the checkpoint after
    the loop and the two [del] statements. *)
Definition applied_state (state_dict_3d : dict (tensor Q))
    (state_dict : dict (tensor Q)) (center : bool) : result (dict (tensor Q)) :=
  state_dict ← load_state_dict_loop state_dict_3d center (keys state_dict) state_dict;
  state_dict ← dict_delitem state_dict "head.weight";
  dict_delitem state_dict "head.bias".

(** [load_state_dict(model, state_dict, center)], with [state_dict_3d] the
    value of [model.state_dict()]. *)
Definition load_state_dict (state_dict_3d : dict (tensor Q))
    (state_dict : dict (tensor Q)) (center : bool) : result Msg :=
  state_dict ← applied_state state_dict_3d state_dict center;
  Module_load_state_dict state_dict.

End Loading.

(** *** The encoder *)

Inductive norm_kind : Type := LayerNorm | RMSNorm.

(** [DropPath(p)] or [nn.Identity()] *)
Inductive drop_path_module : Type :=
| DropPath (drop_prob : Q)
| Identity.

(** The stochastic-depth rate a module applies. *)
Definition drop_rate_of (m : drop_path_module) : Q :=
  match m with
  | DropPath p => p
  | Identity => 0
  end.

Record Block : Type := mkBlock {
  layer_idx : nat;
  norm : norm_kind;
  fused_add_norm : bool;
  residual_in_fp32 : bool;
  drop_path : drop_path_module
}.

(** The constructor arguments of [VisionMamba] that the model depends on. *)
Record config : Type := mkConfig {
  cfg_depth : nat;
  cfg_output_evo_num_channels : nat;
  cfg_embed_dim : nat;
  cfg_drop_rate : Q;
  cfg_drop_path_rate : Q;
  cfg_fused_add_norm : bool;
  cfg_rms_norm : bool;
  cfg_residual_in_fp32 : bool;
  cfg_num_tokens : nat;
  cfg_use_checkpoint : bool;
  cfg_checkpoint_num : Z
}.

Record VisionMamba : Type := mkVisionMamba {
  vm_residual_in_fp32 : bool;
  vm_fused_add_norm : bool;
  vm_use_checkpoint : bool;
  vm_checkpoint_num : Z;
  embed_dim : nat;
  output_evo_num_channels : nat;
  sequence_length : nat;
  pos_drop : Q;
  vm_drop_path : drop_path_module;
  layers : list Block;
  norm_f : norm_kind;
  embedding_weight : tensor Q;
  embedding_bias : tensor Q
}.

Section Construction.
(** Whether [mamba_ssm.ops.triton.layernorm] was imported; otherwise
    [RMSNorm], [layer_norm_fn] and [rms_norm_fn] are [None]. *)
Variable triton_imported : bool.
(** The initial values of the embedding weight. *)
Variable proj_init : list nat -> Q.

Definition make_drop_path (p : Q) : drop_path_module :=
  if Qlt_le_dec 0 p then DropPath p else Identity.

Definition Block_init (norm_cls : norm_kind) (fused : bool) (res_fp32 : bool)
    (drop_path_rate : Q) : result Block :=
  let dp := make_drop_path drop_path_rate in
  if fused && negb triton_imported then Raise AssertionError
  else Ok (mkBlock 0 norm_cls fused res_fp32 dp).

Definition create_block (rms_norm res_fp32 fused : bool) (idx : nat)
    (drop_path_rate : Q) : result Block :=
  if rms_norm && negb triton_imported then Raise TypeError
  else
    block ← Block_init (if rms_norm then RMSNorm else LayerNorm)
                       fused res_fp32 drop_path_rate;
    Ok (mkBlock idx (norm block) (fused_add_norm block)
                (residual_in_fp32 block) (drop_path block)).

(** The list comprehension building the blocks, over [range(depth)]. *)
Fixpoint create_blocks (cfg : config) (inter_dpr : list Q) (idxs : list nat)
  : result (list Block) :=
  match idxs with
  | [] => Ok []
  | i :: idxs' =>
      dp ← list_index inter_dpr i;
      block ← create_block (cfg_rms_norm cfg) (cfg_residual_in_fp32 cfg)
                           (cfg_fused_add_norm cfg) i dp;
      blocks ← create_blocks cfg inter_dpr idxs';
      Ok (block :: blocks)
  end.

(** [nn.Dropout(p)]: the probability is checked when the module is made. *)
Definition Dropout_init (p : Q) : result Q :=
  if Qlt_le_dec p 0 then Raise ValueError
  else if Qlt_le_dec 1 p then Raise ValueError
  else Ok p.

Definition VisionMamba_init (cfg : config) : result VisionMamba :=
  pos_drop ← Dropout_init (cfg_drop_rate cfg);
  let dpr := linspace 0 (cfg_drop_path_rate cfg) (cfg_depth cfg) in
  let inter_dpr := 0 :: dpr in
  let final_drop_path := make_drop_path (cfg_drop_path_rate cfg) in
  blocks ← create_blocks cfg inter_dpr (seq 0 (cfg_depth cfg));
  if cfg_rms_norm cfg && negb triton_imported then Raise TypeError
  else
    Ok {| vm_residual_in_fp32 := cfg_residual_in_fp32 cfg;
          vm_fused_add_norm := cfg_fused_add_norm cfg;
          vm_use_checkpoint := cfg_use_checkpoint cfg;
          vm_checkpoint_num := cfg_checkpoint_num cfg;
          embed_dim := cfg_embed_dim cfg;
          output_evo_num_channels := cfg_output_evo_num_channels cfg;
          sequence_length := cfg_num_tokens cfg;
          pos_drop := pos_drop;
          vm_drop_path := final_drop_path;
          layers := blocks;
          norm_f := if cfg_rms_norm cfg then RMSNorm else LayerNorm;
          embedding_weight :=
            build [cfg_embed_dim cfg; cfg_output_evo_num_channels cfg] proj_init;
          embedding_bias := build [cfg_embed_dim cfg] (fun _ => 0) |}.

End Construction.

(** *** The forward pass *)

(** The computations of the libraries that the forward pass calls: the
    Mamba mixer of each block, the normalisation layers, the fused
    add-and-normalise kernels of [mamba_ssm], and the random masks of
    [DropPath] and [nn.Dropout].  Blocks are told apart by [layer_idx];
    [None] is the final normalisation [norm_f]. *)
Record kernels (inference_params : Type) : Type := mkKernels {
  mixer_forward : nat -> tensor Q -> option inference_params -> tensor Q;
  norm_forward : option nat -> tensor Q -> tensor Q;
  (** [layer_norm_fn] or [rms_norm_fn], by the kind of the norm: the
      arguments are the norm, the input, [residual], [prenorm] and
      [residual_in_fp32]; the result is the normalised tensor and the
      residual (the latter is returned to the caller under [prenorm]). *)
  fused_add_norm_fn :
    norm_kind -> option nat -> tensor Q -> option (tensor Q) -> bool -> bool ->
    tensor Q * tensor Q;
  drop_path_forward : Q -> tensor Q -> tensor Q;
  dropout_forward : Q -> tensor Q -> tensor Q
}.
Arguments mixer_forward {inference_params} k.
Arguments norm_forward {inference_params} k.
Arguments fused_add_norm_fn {inference_params} k.
Arguments drop_path_forward {inference_params} k.
Arguments dropout_forward {inference_params} k.

Section Forward.
Variable triton_imported : bool.
Context {inference_params : Type}.
Variable k : kernels inference_params.

(** [self.drop_path(x)] *)
Definition apply_drop_path (dp : drop_path_module) (x : tensor Q) : tensor Q :=
  match dp with
  | DropPath p => drop_path_forward k p x
  | Identity => x
  end.

(** [Block.forward]; the casts [.to(dtype)] are the identity on exact
    elements. *)
Definition Block_forward (self : Block) (hidden_states : tensor Q)
    (residual : option (tensor Q)) (ip : option inference_params)
    (use_checkpoint : bool) : result (tensor Q * tensor Q) :=
  '(hidden_states, residual) ←
    (if negb (fused_add_norm self) then
       residual ← match residual with
                  | Some r => add r (apply_drop_path (drop_path self) hidden_states)
                  | None => Ok hidden_states
                  end;
       let hidden_states := norm_forward k (Some (layer_idx self)) residual in
       Ok (hidden_states, residual)
     else if negb triton_imported then Raise TypeError
     else
       Ok (fused_add_norm_fn k (norm self) (Some (layer_idx self))
             (match residual with
              | None => hidden_states
              | Some _ => apply_drop_path (drop_path self) hidden_states
              end)
             residual true (residual_in_fp32 self)));
  let hidden_states :=
    if use_checkpoint
    then checkpoint (mixer_forward k (layer_idx self)) hidden_states ip
    else mixer_forward k (layer_idx self) hidden_states ip in
  Ok (hidden_states, residual).

(** The loop over [enumerate(self.layers)], from the index [idx] on. *)
Fixpoint layers_loop (self : VisionMamba) (idx : nat) (blocks : list Block)
    (hidden_states : tensor Q) (residual : option (tensor Q))
    (ip : option inference_params)
  : result (tensor Q * option (tensor Q)) :=
  match blocks with
  | [] => Ok (hidden_states, residual)
  | layer :: blocks' =>
      '(hidden_states, residual) ←
        (if vm_use_checkpoint self && (Z.of_nat idx <? vm_checkpoint_num self)%Z
         then Block_forward layer hidden_states residual ip true
         else Block_forward layer hidden_states residual ip false);
      layers_loop self (S idx) blocks' hidden_states (Some residual) ip
  end.

Definition forward_features (self : VisionMamba) (x : tensor Q)
    (ip : option inference_params) : result (tensor Q) :=
  x ← linear (embedding_weight self) (embedding_bias self) x;
  x ← rearrange_bt_c x (sequence_length self);
  let x := dropout_forward k (pos_drop self) x in
  '(hidden_states, residual) ← layers_loop self 0 (layers self) x None ip;
  if negb (vm_fused_add_norm self) then
    residual ← match residual with
               | None => Ok hidden_states
               | Some r => add r (apply_drop_path (vm_drop_path self) hidden_states)
               end;
    Ok (norm_forward k None residual)
  else if negb triton_imported then Raise TypeError
  else
    Ok (fst (fused_add_norm_fn k (norm_f self) None
               (apply_drop_path (vm_drop_path self) hidden_states)
               residual false (vm_residual_in_fp32 self))).

Definition forward (self : VisionMamba) (x : tensor Q)
    (ip : option inference_params) : result (tensor Q) :=
  forward_features self x ip.

End Forward.

(** [VisionMamba.get_num_layers] *)
Definition get_num_layers (self : VisionMamba) : nat := length (layers self).

(** The stochastic-depth rate of block [i] of a model. *)
Definition block_rate (m : VisionMamba) (i : nat) : Q :=
  match layers m !! i with
  | Some block => drop_rate_of (drop_path block)
  | None => 0
  end.

(** *** Vocabulary of the properties *)

(** The entry [inter_dpr[i]] of the constructor: a zero, then the points of
    [linspace(0, r, depth)]. *)
Definition inter_value (r : Q) (depth i : nat) : Q :=
  match i with
  | O => 0
  | S k => 0 + inject_Z (Z.of_nat k)
               * ((r - 0) / inject_Z (Z.of_nat (depth - 1)))
  end.

Section Vocabulary.
Import PyDict.

(** The value the loop of [load_state_dict] leaves at the key [k] of a
    checkpoint that held [v] there. *)
Definition entry_after (state_dict_3d : dict (tensor Q)) (center : bool)
    (k : string) (v : tensor Q) : result (tensor Q) :=
  match dict_lookup state_dict_3d k with
  | None => Ok v
  | Some live =>
      if shape_eqb (shape v) (shape live) then Ok v
      else if (length (shape live) <=? 3)%nat then Ok v
      else time_dim ← list_index (shape live) 2;
           inflate_weight v time_dim center
  end.

End Vocabulary.

(** The model after the assignments [self.use_checkpoint = use_checkpoint]
    and [self.checkpoint_num = checkpoint_num]. *)
Definition with_checkpoint (self : VisionMamba) (use_checkpoint : bool)
    (checkpoint_num : Z) : VisionMamba :=
  {| vm_residual_in_fp32 := vm_residual_in_fp32 self;
     vm_fused_add_norm := vm_fused_add_norm self;
     vm_use_checkpoint := use_checkpoint;
     vm_checkpoint_num := checkpoint_num;
     embed_dim := embed_dim self;
     output_evo_num_channels := output_evo_num_channels self;
     sequence_length := sequence_length self;
     pos_drop := pos_drop self;
     vm_drop_path := vm_drop_path self;
     layers := layers self;
     norm_f := norm_f self;
     embedding_weight := embedding_weight self;
     embedding_bias := embedding_bias self |}.

(** The library computations keep the shape of the hidden state. *)
Record shape_preserving {IP : Type} (k : kernels IP) : Prop := {
  mixer_shape : forall i x ip, shape (mixer_forward k i x ip) = shape x;
  norm_shape : forall o x, shape (norm_forward k o x) = shape x;
  fused_shape : forall kind o x r prenorm fp32,
    (forall r', r = Some r' -> shape r' = shape x) ->
    shape (fst (fused_add_norm_fn k kind o x r prenorm fp32)) = shape x /\
    shape (snd (fused_add_norm_fn k kind o x r prenorm fp32)) = shape x;
  drop_path_shape : forall p x, shape (drop_path_forward k p x) = shape x;
  dropout_shape : forall p x, shape (dropout_forward k p x) = shape x
}.
Arguments shape_preserving {IP} k.

(** A block whose fused path can run: the kernels were imported. *)
Definition runnable (triton_imported : bool) (b : Block) : Prop :=
  fused_add_norm b = true -> triton_imported = true.

End VideoMamba.

(** ** src/experimental/optimizers.py *)

Module Optimizers.

(** The classes [isinstance] tells apart. *)
Inductive module_type : Type := LayerNormT | RMSNormT | OtherT.

(** A parameter: its identity as an object, and its [_no_weight_decay]
    attribute when it has one. *)
Record param : Type := mkParam {
  param_id : nat;
  no_weight_decay_attr : option bool
}.

(** A [torch.nn.Module]: its class, its [_parameters] (an entry may be
    [None], as the bias of a layer built without one) and its [_modules]. *)
#[local] Unset Elimination Schemes.
Inductive Module : Type :=
| mkModule (mtype : module_type)
           (parameters : list (string * option param))
           (modules : list (string * Module)).
#[local] Set Elimination Schemes.

Definition mtype (m : Module) : module_type :=
  match m with mkModule t _ _ => t end.
Definition parameters (m : Module) : list (string * option param) :=
  match m with mkModule _ ps _ => ps end.
Definition modules (m : Module) : list (string * Module) :=
  match m with mkModule _ _ ms => ms end.

(** [prefix + ("." if prefix else "") + name] *)
Definition join_prefix (prefix name : string) : string :=
  match prefix with
  | EmptyString => name
  | _ => prefix ++ "." ++ name
  end.

(** [Module.named_modules(prefix)]: the module, then its children in
    order, each with its dotted name. *)
Fixpoint named_modules (prefix : string) (m : Module) : list (string * Module) :=
  (prefix, m) ::
  (fix children (ms : list (string * Module)) : list (string * Module) :=
     match ms with
     | [] => []
     | (name, child) :: ms' =>
         named_modules (join_prefix prefix name) child ++ children ms'
     end) (modules m).

(** A parameter met by the traversal, with the module that holds it. *)
Record member : Type := mkMember {
  m_prefix : string;
  m_owner : Module;
  m_key : string;
  m_param : param
}.

Definition members_of (pm : string * Module) : list member :=
  omap (fun kv => match snd kv with
                  | Some p => Some (mkMember (fst pm) (snd pm) (fst kv) p)
                  | None => None
                  end)
       (parameters (snd pm)).

(** The [memo] set of [_named_members]: a parameter object is yielded once. *)
Fixpoint remove_duplicate (memo : list nat) (l : list member) : list member :=
  match l with
  | [] => []
  | x :: l' =>
      if bool_decide (param_id (m_param x) ∈ memo) then remove_duplicate memo l'
      else x :: remove_duplicate (param_id (m_param x) :: memo) l'
  end.

Definition named_members (model : Module) : list member :=
  remove_duplicate [] (flat_map members_of (named_modules "" model)).

(** [model.named_parameters()] *)
Definition named_parameters (model : Module) : list (string * param) :=
  map (fun x => (join_prefix (m_prefix x) (m_key x), m_param x))
      (named_members model).

(** [s.split(".")] *)
Fixpoint split_dot (s : string) : list string :=
  match s with
  | EmptyString => [EmptyString]
  | String c s' =>
      if Ascii.eqb c "."%char then EmptyString :: split_dot s'
      else match split_dot s' with
           | h :: t => String c h :: t
           | [] => [String c EmptyString]
           end
  end.

(** What [getattr] can return along a parameter name. *)
Inductive pyobj : Type :=
| ObjModule (m : Module)
| ObjParam (p : option param).

Fixpoint assoc {V} (l : list (string * V)) (k : string) : option V :=
  match l with
  | [] => None
  | (k', v) :: l' => if String.eqb k' k then Some v else assoc l' k
  end.

(** [getattr(parent, k)]: [Module.__getattr__] looks in [_parameters], then
    in [_modules]. *)
Definition getattr (parent : pyobj) (k : string) : result pyobj :=
  match parent with
  | ObjModule m =>
      match assoc (parameters m) k with
      | Some p => Ok (ObjParam p)
      | None =>
          match assoc (modules m) k with
          | Some child => Ok (ObjModule child)
          | None => Raise AttributeError
          end
      end
  | ObjParam _ => Raise AttributeError
  end.

(** [for k in attrs: parent = getattr(parent, k)] *)
Fixpoint get_parent (parent : pyobj) (attrs : list string) : result pyobj :=
  match attrs with
  | [] => Ok parent
  | k :: attrs' => parent' ← getattr parent k; get_parent parent' attrs'
  end.

Section Build.
(** Whether [mamba_ssm.ops.triton.layernorm] was imported; otherwise
    [RMSNorm] is [None], and [isinstance] raises once it reaches it. *)
Variable RMSNorm_imported : bool.

(** [isinstance(parent, (nn.LayerNorm, RMSNorm))] *)
Definition isinstance_norm (parent : pyobj) : result bool :=
  match parent with
  | ObjModule (mkModule LayerNormT _ _) => Ok true
  | ObjModule (mkModule RMSNormT _ _) =>
      if RMSNorm_imported then Ok true else Raise TypeError
  | _ => if RMSNorm_imported then Ok false else Raise TypeError
  end.

(** [getattr(p, "_no_weight_decay", False)], as a condition *)
Definition no_weight_decay (p : param) : bool :=
  match no_weight_decay_attr p with
  | Some b => b
  | None => false
  end.

(** The body of the loop: the two lists after the parameter [p] named
    [name]. *)
Definition bucket (model : Module) (name : string) (p : param)
    (params params_no_wd : list param)
  : result (list param * list param) :=
  let parts := split_dot name in
  let attrs := removelast parts in
  let name := List.last parts EmptyString in
  parent ← get_parent (ObjModule model) attrs;
  is_norm ← isinstance_norm parent;
  if is_norm || String.eqb name "bias" then Ok (params, params_no_wd ++ [p])
  else if no_weight_decay p then Ok (params, params_no_wd ++ [p])
  else Ok (params ++ [p], params_no_wd).

Fixpoint bucket_loop (model : Module) (named : list (string * param))
    (params params_no_wd : list param)
  : result (list param * list param) :=
  match named with
  | [] => Ok (params, params_no_wd)
  | (name, p) :: named' =>
      '(params', params_no_wd') ← bucket model name p params params_no_wd;
      bucket_loop model named' params' params_no_wd'
  end.

(** [build_optimizer_and_scheduler]: the parameters of the two groups
    handed to [AdamW], with and without weight decay. *)
Definition build_optimizer_and_scheduler (model : Module)
  : result (list param * list param) :=
  bucket_loop model (named_parameters model) [] [].

End Build.

(** The names torch accepts for a parameter or a submodule: not empty and
    without a dot. *)
Definition valid_name (s : string) : bool :=
  negb (String.eqb s EmptyString) &&
  forallb (fun c => negb (Ascii.eqb c "."%char)) (list_ascii_of_string s).

(** The invariants of a module tree: [_parameters] and [_modules] are
    dictionaries whose keys are valid names, and one name is not both a
    parameter and a submodule. *)
Fixpoint wf_module (m : Module) : bool :=
  forallb valid_name (map fst (parameters m) ++ map fst (modules m)) &&
  bool_decide (NoDup (map fst (parameters m) ++ map fst (modules m))) &&
  (fix children (ms : list (string * Module)) : bool :=
     match ms with
     | [] => true
     | (_, child) :: ms' => wf_module child && children ms'
     end) (modules m).

(** [linear_warmup(step, warmup)], on integers; the quotient is Python's
    true division. *)
Definition linear_warmup (step warmup : Z) : result Q :=
  if (warmup =? 0)%Z then Raise ZeroDivisionError
  else Ok (inject_Z (Z.min step warmup) / inject_Z warmup)%Q.

(** *** Vocabulary of the properties *)

(** A name without a dot. *)
Definition dotless (s : string) : bool :=
  forallb (fun c => negb (Ascii.eqb c "."%char)) (list_ascii_of_string s).

(** The prefix [named_modules] reaches along a path of submodule names. *)
Definition prefix_of (path : list string) : string :=
  fold_left join_prefix path EmptyString.

(** The submodule at the end of a path of names. *)
Fixpoint descend (m : Module) (path : list string) : option Module :=
  match path with
  | [] => Some m
  | n :: path' =>
      match assoc (modules m) n with
      | Some child => descend child path'
      | None => None
      end
  end.

(** A member whose name leads back to its owner. *)
Definition resolves (model : Module) (x : member) : Prop :=
  exists path,
    List.Forall (fun n => valid_name n = true) path /\
    m_prefix x = prefix_of path /\
    descend model path = Some (m_owner x) /\
    valid_name (m_key x) = true.

Definition is_norm_type (t : module_type) : bool :=
  match t with
  | LayerNormT | RMSNormT => true
  | OtherT => false
  end.

(** The policy: the owner is a normalisation layer, or the key is
    ["bias"], or the parameter is marked. *)
Definition no_decay (x : member) : bool :=
  is_norm_type (mtype (m_owner x)) || String.eqb (m_key x) "bias"
  || no_weight_decay (m_param x).

End Optimizers.

(** ** Examples

    Small inputs on which the definitions above are run. *)

Module Examples.
Import PyDict Torch VideoMamba Optimizers.

(** An encoder of three blocks with maximum drop-path rate 1/10. *)
Definition small_config : config :=
  {| cfg_depth := 3; cfg_output_evo_num_channels := 4; cfg_embed_dim := 2;
     cfg_drop_rate := 0; cfg_drop_path_rate := (1 # 10)%Q;
     cfg_fused_add_norm := true; cfg_rms_norm := true;
     cfg_residual_in_fp32 := true; cfg_num_tokens := 2;
     cfg_use_checkpoint := false; cfg_checkpoint_num := 0 |}.

Definition small_model : VisionMamba :=
  match VisionMamba_init true (fun _ => 1%Q) small_config with
  | Ok m => m
  | Raise _ =>
      mkVisionMamba false false false 0 0 0 0 0 Identity [] LayerNorm
                    (mkTensor [] []) (mkTensor [] [])
  end.

(** An encoder without blocks, with the fused path switched on. *)
Definition empty_config : config :=
  {| cfg_depth := 0; cfg_output_evo_num_channels := 4; cfg_embed_dim := 2;
     cfg_drop_rate := 0; cfg_drop_path_rate := (1 # 10)%Q;
     cfg_fused_add_norm := true; cfg_rms_norm := false;
     cfg_residual_in_fp32 := true; cfg_num_tokens := 2;
     cfg_use_checkpoint := false; cfg_checkpoint_num := 0 |}.

(** Kernels that return their input: enough to run the model on examples. *)
Definition identity_kernels : kernels unit :=
  {| mixer_forward := fun _ x _ => x;
     norm_forward := fun _ x => x;
     fused_add_norm_fn := fun _ _ x _ _ _ => (x, x);
     drop_path_forward := fun _ x => x;
     dropout_forward := fun _ x => x |}.

(** A checkpoint of an image model and the state of a video model. *)
Definition checkpoint_example : dict (tensor Q) :=
  [ ("patch_embed.proj.weight", mkTensor [1; 1; 1; 2] [3; 4]%Q);
    ("pos_embed", mkTensor [1; 3; 1] [1; 2; 3]%Q);
    ("head.weight", mkTensor [2; 1] [1; 1]%Q);
    ("head.bias", mkTensor [2] [0; 0]%Q) ].

Definition live_example : dict (tensor Q) :=
  [ ("patch_embed.proj.weight", mkTensor [1; 1; 2; 1; 2] [0; 0; 0; 0]%Q);
    ("pos_embed", mkTensor [1; 2; 1] [0; 0]%Q);
    ("temporal_pos_embedding", mkTensor [1; 2; 1] [0; 0]%Q) ].

(** A checkpoint without the classification head, as saved from this
    model, which has none. *)
Definition headless_checkpoint : dict (tensor Q) :=
  [ ("pos_embed", mkTensor [1; 2; 1] [1; 2]%Q) ].

(** A small encoder: a positional embedding, one block with a mixer (two
    marked parameters, a projection without bias, a projection with bias)
    and an [RMSNorm], a final [LayerNorm], and an embedding projection. *)
Definition sample_model : Module :=
  let p i := Some (mkParam i None) in
  let marked i := Some (mkParam i (Some true)) in
  mkModule OtherT [("pos_embed", p 0)]
    [ ("layers",
       mkModule OtherT []
         [ ("0",
            mkModule OtherT []
              [ ("mixer",
                 mkModule OtherT [("A_log", marked 1); ("D", marked 2)]
                   [ ("in_proj", mkModule OtherT [("weight", p 3); ("bias", None)] []);
                     ("out_proj", mkModule OtherT [("weight", p 4); ("bias", p 5)] []) ]);
                ("norm", mkModule RMSNormT [("weight", p 6)] []) ]) ]);
      ("norm_f", mkModule LayerNormT [("weight", p 7); ("bias", p 8)] []);
      ("embedding",
       mkModule OtherT [] [("proj", mkModule OtherT [("weight", p 9); ("bias", p 10)] [])]) ].

End Examples.

(** * Properties *)

(** ** Row-major indexing *)

Section TensorFacts.
Context {A : Type}.
Implicit Types (s idx : list nat) (t : tensor A).

Lemma numel_pos s idx : in_range s idx -> 0 < numel s.
Proof.
  induction 1 as [|i d idx s Hid _ IH]; cbn; [lia|]. nia.
Qed.

Lemma ravel_lt s idx : in_range s idx -> ravel s idx < numel s.
Proof.
  induction 1 as [|i d idx s Hid _ IH]; cbn; [lia|]. nia.
Qed.

Lemma unravel_ravel s idx : in_range s idx -> unravel s (ravel s idx) = idx.
Proof.
  induction 1 as [|i d idx s Hid Hr IH]; cbn; [reflexivity|].
  pose proof (ravel_lt _ _ Hr) as Hlt.
  rewrite Nat.div_add_l by lia.
  rewrite Nat.div_small by assumption.
  rewrite (Nat.add_comm (i * numel s)), Nat.Div0.mod_add.
  rewrite Nat.mod_small by assumption.
  rewrite IH, Nat.add_0_r. reflexivity.
Qed.

Lemma unravel_in_range s n : n < numel s -> in_range s (unravel s n).
Proof.
  revert n. induction s as [|d s IH]; intros n Hn; cbn in *; [constructor|].
  assert (numel s <> 0) by (intros E; rewrite E in Hn; lia).
  constructor.
  - apply Nat.Div0.div_lt_upper_bound. lia.
  - apply IH, Nat.mod_upper_bound. assumption.
Qed.

Lemma ravel_unravel s n : n < numel s -> ravel s (unravel s n) = n.
Proof.
  revert n. induction s as [|d s IH]; intros n Hn; cbn in *; [lia|].
  assert (numel s <> 0) by (intros E; rewrite E in Hn; lia).
  rewrite IH by (apply Nat.mod_upper_bound; assumption).
  pose proof (Nat.div_mod_eq n (numel s)). lia.
Qed.

Lemma build_shape s (f : list nat -> A) : shape (build s f) = s.
Proof. reflexivity. Qed.

Lemma build_wf s (f : list nat -> A) : wf_tensor (build s f).
Proof. unfold wf_tensor, build. cbn. by rewrite length_map, length_seq. Qed.

(** Reading a built tensor inside its shape gives the generating function. *)
Lemma get_build dflt s (f : list nat -> A) idx :
  in_range s idx -> get dflt (build s f) idx = f idx.
Proof.
  intros Hr. unfold get, build. cbn.
  pose proof (ravel_lt _ _ Hr) as Hlt.
  rewrite nth_indep with (d' := f (unravel s 0))
    by (rewrite length_map, length_seq; assumption).
  rewrite (map_nth (fun n => f (unravel s n)) (seq 0 (numel s)) 0).
  rewrite seq_nth by assumption. cbn. by rewrite unravel_ravel.
Qed.

Lemma build_ext s (f g : list nat -> A) :
  (forall idx, in_range s idx -> f idx = g idx) -> build s f = build s g.
Proof.
  intros H. unfold build. f_equal. apply map_ext_in.
  intros n Hn. apply in_seq in Hn. apply H, unravel_in_range. lia.
Qed.

(** A well-formed tensor is the tensor built from its own elements. *)
Lemma build_get dflt t : wf_tensor t -> build (shape t) (get dflt t) = t.
Proof.
  destruct t as [s l]. unfold wf_tensor, build, get. cbn. intros Hwf. f_equal.
  apply nth_ext with (d := dflt) (d' := dflt).
  - by rewrite length_map, length_seq.
  - intros n Hn. rewrite length_map, length_seq in Hn.
    rewrite nth_indep with (d' := nth (ravel s (unravel s 0)) l dflt)
      by (rewrite length_map, length_seq; assumption).
    rewrite (map_nth (fun n => nth (ravel s (unravel s n)) l dflt)
               (seq 0 (numel s)) 0).
    rewrite seq_nth by assumption. cbn. by rewrite ravel_unravel.
Qed.

End TensorFacts.

(** Splits [in_range] of explicit lists into its comparisons. *)
Ltac range_inv :=
  unfold in_range in *;
  repeat match goal with
         | H : Forall2 _ (_ :: _) _ |- _ =>
             apply Forall2_cons_inv_l in H; destruct H as (? & ? & ? & H & ?)
         | H : Forall2 _ [] _ |- _ => apply Forall2_nil_inv_l in H
         | H : Forall2 _ _ (_ :: _) |- _ =>
             apply Forall2_cons_inv_r in H; destruct H as (? & ? & ? & H & ?)
         | H : Forall2 _ _ [] |- _ => apply Forall2_nil_inv_r in H
         end;
  simplify_eq.

Ltac range_intro :=
  unfold in_range; repeat first [apply Forall2_nil_2 | apply Forall2_cons_2]; try lia.

(** ** src/utils.py *)

Module UtilsSpec.
Import Utils.

Ltac unamb_cases H :=
  destruct H as [-> | [-> | [-> | ->]]].

Lemma randint_one tape pos : randint tape 1 pos = Ok (0, S pos).
Proof. unfold randint. cbn [Nat.eqb]. rewrite Nat.mod_1_r. reflexivity. Qed.

Lemma encode_step tape c pos (H : unambiguous c) :
  dna_to_tensor_body tape c pos = Ok (enc c, S pos).
Proof.
  unfold dna_to_tensor_body; unamb_cases H;
    cbn [dict_get LETTER_TO_BASES Ascii.eqb Bool.eqb mbind result_bind String.length];
    rewrite randint_one; reflexivity.
Qed.

Lemma dna_to_tensor_loop_unambiguous tape dna :
  forall sequence pos,
    Forall unambiguous dna ->
    dna_to_tensor_loop tape dna sequence pos
    = Ok (sequence ++ map enc dna, pos + length dna).
Proof.
  induction dna as [|c dna IH]; intros sequence pos Hall; cbn [dna_to_tensor_loop].
  - rewrite app_nil_r, Nat.add_0_r. reflexivity.
  - inversion Hall as [|? ? Hc Hrest]; subst.
    rewrite encode_step by assumption. cbn [mbind result_bind].
    rewrite IH by assumption.
    rewrite <- app_assoc. cbn. do 2 f_equal. lia.
Qed.

Lemma decode_enc c eos (H : unambiguous c) :
  ~ (0 <= eos <= 3)%Z ->
  (enc c =? eos)%Z = false /\ str_index INDEX_TO_BASE (enc c) = Ok c.
Proof.
  intros Heos. unamb_cases H; cbn; split; try reflexivity; apply Z.eqb_neq; lia.
Qed.

Lemma tensor_to_dna_loop_enc dna eos :
  ~ (0 <= eos <= 3)%Z ->
  forall acc,
    Forall unambiguous dna ->
    tensor_to_dna_loop (map enc dna) eos acc = Ok (acc ++ dna).
Proof.
  intros Heos. induction dna as [|c dna IH]; intros acc Hall; cbn [map tensor_to_dna_loop].
  - rewrite app_nil_r. reflexivity.
  - inversion Hall as [|? ? Hc Hrest]; subst.
    destruct (decode_enc c eos Hc Heos) as [-> ->]. cbn.
    rewrite IH by assumption. rewrite <- app_assoc. reflexivity.
Qed.

Lemma eos_guard eos :
  ~ (0 <= eos <= 3)%Z ->
  existsb (Z.eqb eos) (map snd BASE_TO_INDEX) = false.
Proof.
  intros H. cbn. repeat (rewrite orb_false_iff; split); try reflexivity;
    apply Z.eqb_neq; lia.
Qed.

(** C9: on a DNA string of unambiguous letters, and with an [eos] outside
    [{0, 1, 2, 3}], [dna_to_tensor] succeeds whatever the random generator
    draws, and [tensor_to_dna] applied to its result returns the string. *)
Theorem dna_roundtrip (tape : nat -> nat) (s : string) (eos : Z) (pos : nat) :
  Forall unambiguous (list_ascii_of_string s) ->
  ~ (0 <= eos <= 3)%Z ->
  exists t pos',
    dna_to_tensor tape s pos = Ok (t, pos') /\
    tensor_to_dna t eos = Ok s.
Proof.
  intros Hs Heos. unfold dna_to_tensor.
  rewrite dna_to_tensor_loop_unambiguous by assumption. cbn.
  eexists _, _. split; [reflexivity|].
  unfold tensor_to_dna. cbn [ndim shape data length Nat.eqb negb].
  rewrite eos_guard by assumption.
  rewrite tensor_to_dna_loop_enc by assumption. cbn.
  rewrite string_of_list_ascii_of_string. reflexivity.
Qed.

Lemma dna_roundtrip_witness :
  exists t pos',
    dna_to_tensor (fun n => 7 * n + 3) "GATTACA" 0 = Ok (t, pos') /\
    tensor_to_dna t 4 = Ok "GATTACA".
Proof.
  apply dna_roundtrip.
  - cbn. unfold unambiguous.
    repeat first [apply List.Forall_nil | apply List.Forall_cons]; auto 6.
  - lia.
Defined.

Lemma roll_lookup {A} (l : list A) (k i : nat) :
  k < length l -> i < length l ->
  roll l k !! i
  = l !! Z.to_nat ((Z.of_nat i - Z.of_nat k) mod Z.of_nat (length l)).
Proof.
  intros Hk Hi. unfold roll. rewrite Nat.mod_small by assumption.
  set (n := length l) in *.
  destruct (Nat.lt_ge_cases i k) as [Hlt|Hge].
  - rewrite lookup_app_l by (rewrite length_drop; lia).
    rewrite lookup_drop. f_equal.
    replace ((Z.of_nat i - Z.of_nat k) mod Z.of_nat n)%Z
      with (Z.of_nat i - Z.of_nat k + Z.of_nat n)%Z.
    + lia.
    + apply Z.mod_unique with (q := (-1)%Z); lia.
  - rewrite lookup_app_r by (rewrite length_drop; lia).
    rewrite length_drop.
    rewrite lookup_take_lt by lia. f_equal.
    rewrite Z.mod_small by lia. lia.
Qed.

Lemma roll_length {A} (l : list A) k : length (roll l k) = length l.
Proof.
  unfold roll. rewrite length_app, length_drop, length_take. lia.
Qed.

Lemma roll_perm {A} (l : list A) k : Permutation (roll l k) l.
Proof.
  unfold roll. rewrite Permutation_app_comm. by rewrite take_drop.
Qed.

(** C10: on a non-empty 1-D tensor [random_roll] succeeds and returns a
    cyclic rotation: same shape and length, and a shift [k < length] with
    [output[i] = s[(i - k) mod length]] at every index; the elements are a
    permutation of the input's. *)
Theorem random_roll_rotation {A} (tape : nat -> nat) (s : tensor A) (pos : nat) :
  ndim s = 1 -> wf_tensor s -> data s <> [] ->
  exists k out pos',
    random_roll tape s pos = Ok (out, pos') /\
    k < length (data s) /\
    shape out = shape s /\
    length (data out) = length (data s) /\
    (forall i, i < length (data s) ->
       data out !! i
       = data s !! Z.to_nat ((Z.of_nat i - Z.of_nat k)
                               mod Z.of_nat (length (data s)))) /\
    Permutation (data out) (data s).
Proof.
  intros Hnd Hwf Hne. destruct s as [sh l]. unfold ndim, wf_tensor in *. cbn in *.
  destruct sh as [|n [|? ?]]; try discriminate. cbn in Hwf.
  rewrite Nat.mul_1_r in Hwf. subst n.
  assert (Hpos : 0 < length l) by (destruct l; [congruence | cbn; lia]).
  unfold random_roll, randint. cbn.
  destruct (length l =? 0) eqn:E; [apply Nat.eqb_eq in E; lia|]. cbn.
  exists (tape pos mod length l). eexists _, _. split; [reflexivity|].
  assert (Hk : tape pos mod length l < length l) by (apply Nat.mod_upper_bound; lia).
  cbn. repeat split.
  - exact Hk.
  - apply roll_length.
  - intros i Hi. by apply roll_lookup.
  - apply roll_perm.
Qed.

Lemma random_roll_rotation_witness :
  exists k out pos',
    random_roll (fun n => n + 7) (mkTensor [5] [10; 20; 30; 40; 50]%Z) 0
    = Ok (out, pos') /\
    k < 5 /\
    shape out = [5] /\
    length (data out) = 5 /\
    (forall i, i < 5 ->
       data out !! i
       = [10; 20; 30; 40; 50]%Z !! Z.to_nat ((Z.of_nat i - Z.of_nat k) mod 5)) /\
    Permutation (data out) [10; 20; 30; 40; 50]%Z.
Proof.
  apply (random_roll_rotation (fun n => n + 7)
           (mkTensor [5] [10; 20; 30; 40; 50]%Z) 0).
  - reflexivity.
  - reflexivity.
  - discriminate.
Defined.

End UtilsSpec.

(** ** Weight inflation *)

Module InflateSpec.
Import Torch VideoMamba.
Local Open Scope Q_scope.

Lemma unsqueeze2_4d {A} (t : tensor A) (a b c d : nat) :
  shape t = [a; b; c; d] ->
  unsqueeze 2 t = Ok (mkTensor [a; b; 1; c; d]%nat (data t)).
Proof. intros H. unfold unsqueeze, ndim. rewrite H. reflexivity. Qed.

Lemma repeat_time {A} (dflt : A) (t : tensor A) (a b c d T : nat) :
  shape t = [a; b; 1; c; d]%nat ->
  repeat dflt [1; 1; T; 1; 1]%nat t
  = Ok (build [a; b; T; c; d]
          (fun idx => get dflt t (zip_with Nat.modulo idx [a; b; 1; c; d]%nat))).
Proof.
  intros H. destruct t as [s l]. cbn in H. subst s.
  unfold repeat, ndim.
  cbn [shape data length Nat.ltb Nat.leb Nat.sub replicate app zip_with].
  rewrite !Nat.mul_1_r, Nat.mul_1_l. reflexivity.
Qed.

(** The elements of the unsqueezed tensor are those of the tensor. *)
Lemma get_unsqueezed {A} (dflt : A) (l : list A) (a b c d o i h x : nat) :
  get dflt (mkTensor [a; b; 1; c; d]%nat l) [o; i; 0; h; x]%nat
  = get dflt (mkTensor [a; b; c; d] l) [o; i; h; x].
Proof. unfold get. cbn. f_equal. lia. Qed.

(** The tensor [unsqueeze(2).repeat(1, 1, T, 1, 1)] holds the element
    [t[o, i, h, x]] at every [[o, i, m, h, x]]. *)
Lemma get_repeated {A} (dflt : A) (t : tensor A) (a b c d T o i m h x : nat) :
  shape t = [a; b; c; d] ->
  (o < a)%nat -> (i < b)%nat -> (m < T)%nat -> (h < c)%nat -> (x < d)%nat ->
  get dflt
      (build [a; b; T; c; d]
         (fun idx => get dflt (mkTensor [a; b; 1; c; d]%nat (data t))
                       (zip_with Nat.modulo idx [a; b; 1; c; d]%nat)))
      [o; i; m; h; x]
  = get dflt t [o; i; h; x].
Proof.
  intros Hs Ho Hi Hm Hh Hx.
  rewrite get_build by range_intro.
  cbn [zip_with]. rewrite Nat.mod_1_r. rewrite !Nat.mod_small by assumption.
  rewrite get_unsqueezed. destruct t as [s l]. cbn in Hs. subst s. reflexivity.
Qed.

Lemma half_lt (T : nat) : (1 <= T)%nat -> (T / 2 < T)%nat.
Proof. intros H. apply Nat.div_lt; lia. Qed.

(** What [inflate_weight] returns with [center=True] on a 4-D weight. *)
Lemma inflate_center_get (w : tensor Q) (a b c d T : nat) :
  shape w = [a; b; c; d] -> (1 <= T)%nat ->
  exists w3,
    inflate_weight w T true = Ok w3 /\
    shape w3 = [a; b; T; c; d] /\
    wf_tensor w3 /\
    forall o i m h x,
      (o < a)%nat -> (i < b)%nat -> (m < T)%nat -> (h < c)%nat -> (x < d)%nat ->
      get 0 w3 [o; i; m; h; x]
      = if (m =? T / 2)%nat then get 0 w [o; i; h; x] else 0.
Proof.
  intros Hs HT. unfold inflate_weight. rewrite Hs.
  cbn [zeros mbind result_bind].
  rewrite (unsqueeze2_4d _ a b c d) by reflexivity. cbn [mbind result_bind].
  rewrite (repeat_time 0 _ a b c d T) by reflexivity. cbn [mbind result_bind].
  unfold set_slice2, ndim. rewrite build_shape.
  cbn [length Nat.ltb Nat.leb nth take drop app].
  pose proof (half_lt T HT) as Hhalf.
  destruct (T <=? T / 2)%nat eqn:E; [apply Nat.leb_le in E; lia|].
  rewrite Hs. unfold broadcastable.
  cbn [length Nat.leb Nat.sub drop zip zip_with forallb fst snd andb negb].
  rewrite !Nat.eqb_refl. cbn [orb andb negb].
  eexists. split; [reflexivity|]. split; [reflexivity|]. split; [apply build_wf|].
  intros o i m h x Ho Hi Hm Hh Hx.
  rewrite get_build by range_intro.
  cbn [nth take drop app length Nat.sub zip_with].
  destruct (m =? T / 2)%nat.
  - rewrite !Nat.mod_small by assumption. reflexivity.
  - rewrite (get_repeated 0 (build [a; b; c; d] (fun _ => 0)) a b c d T)
      by (assumption || reflexivity).
    rewrite get_build by range_intro. reflexivity.
Qed.

(** C5: for a 4-D weight [w] and [time_dim >= 1], [inflate_weight] with
    [center=True] returns a 5-D tensor whose temporal slice at index
    [time_dim // 2] is [w] itself and whose other temporal slices are zero. *)
Theorem inflate_weight_center (w : tensor Q) (a b c d T : nat) :
  shape w = [a; b; c; d] -> wf_tensor w -> (1 <= T)%nat ->
  exists w3,
    inflate_weight w T true = Ok w3 /\
    shape w3 = [a; b; T; c; d] /\
    select2 0 w3 (T / 2) = w /\
    forall m, (m < T)%nat -> m <> (T / 2)%nat ->
      Ok (select2 0 w3 m) = zeros (shape w).
Proof.
  intros Hs Hwf HT.
  destruct (inflate_center_get w a b c d T Hs HT) as (w3 & Hw3 & Hs3 & _ & Hget).
  exists w3. split; [exact Hw3|]. split; [exact Hs3|].
  pose proof (half_lt T HT) as Hhalf.
  split.
  - etransitivity; [|exact (build_get 0 w Hwf)].
    unfold select2. rewrite Hs3, Hs.
    cbn [take drop app]. apply build_ext. intros idx Hr. range_inv.
    cbn [take drop app]. rewrite Hget by assumption.
    by rewrite Nat.eqb_refl.
  - intros m Hm Hne. rewrite Hs. cbn [zeros]. f_equal.
    unfold select2. rewrite Hs3. cbn [take drop app].
    apply build_ext. intros idx Hr. range_inv.
    cbn [take drop app]. rewrite Hget by assumption.
    destruct (m =? T / 2)%nat eqn:E; [apply Nat.eqb_eq in E; lia|reflexivity].
Qed.

Lemma inflate_weight_center_witness :
  exists w3,
    inflate_weight (mkTensor [1; 2; 1; 2]%nat [1; 2; 3; 4]) 3 true = Ok w3 /\
    shape w3 = [1; 2; 3; 1; 2]%nat /\
    select2 0 w3 (3 / 2) = mkTensor [1; 2; 1; 2]%nat [1; 2; 3; 4] /\
    forall m, (m < 3)%nat -> m <> (3 / 2)%nat ->
      Ok (select2 0 w3 m) = zeros [1; 2; 1; 2]%nat.
Proof.
  apply (inflate_weight_center (mkTensor [1; 2; 1; 2]%nat [1; 2; 3; 4]) 1 2 1 2 3).
  - reflexivity.
  - reflexivity.
  - lia.
Defined.

Lemma get_div_scalar (r : tensor Q) (n : nat) idx :
  wf_tensor r -> in_range (shape r) idx ->
  get 0 (div_scalar r n) idx = get 0 r idx / inject_Z (Z.of_nat n).
Proof.
  intros Hwf Hr. unfold get, div_scalar. cbn [shape data].
  pose proof (ravel_lt _ _ Hr) as Hlt. rewrite <- Hwf in Hlt.
  rewrite nth_indep with (d' := 0 / inject_Z (Z.of_nat n))
    by (rewrite length_map; assumption).
  apply (map_nth (fun x => x / inject_Z (Z.of_nat n))).
Qed.

Lemma div_scalar_wf (t : tensor Q) n : wf_tensor t -> wf_tensor (div_scalar t n).
Proof. unfold wf_tensor, div_scalar. cbn. by rewrite length_map. Qed.

(** What [inflate_weight] returns with [center=False] on a 4-D weight. *)
Lemma inflate_spread_get (w : tensor Q) (a b c d T : nat) :
  shape w = [a; b; c; d] ->
  exists w3,
    inflate_weight w T false = Ok w3 /\
    shape w3 = [a; b; T; c; d] /\
    wf_tensor w3 /\
    forall o i m h x,
      (o < a)%nat -> (i < b)%nat -> (m < T)%nat -> (h < c)%nat -> (x < d)%nat ->
      get 0 w3 [o; i; m; h; x] = get 0 w [o; i; h; x] / inject_Z (Z.of_nat T).
Proof.
  intros Hs. unfold inflate_weight.
  rewrite (unsqueeze2_4d _ a b c d) by assumption. cbn [mbind result_bind].
  rewrite (repeat_time 0 _ a b c d T) by reflexivity. cbn [mbind result_bind].
  eexists. split; [reflexivity|]. split; [reflexivity|].
  split; [apply div_scalar_wf, build_wf|].
  intros o i m h x Ho Hi Hm Hh Hx.
  rewrite get_div_scalar by (apply build_wf || (rewrite build_shape; range_intro)).
  f_equal. by apply get_repeated.
Qed.

Lemma sum_constant (y : Q) (l : list nat) :
  foldr Qplus 0 (map (fun _ => y) l) == inject_Z (Z.of_nat (length l)) * y.
Proof.
  induction l as [|m l IH]; cbn [map foldr length].
  - cbn. ring.
  - rewrite IH, Nat2Z.inj_succ, <- Z.add_1_l, inject_Z_plus. ring.
Qed.

(** C6: for a 4-D weight [w] and [time_dim >= 1], [inflate_weight] with
    [center=False] returns a tensor each of whose temporal slices is
    [w / time_dim], and the sum of the result over the temporal axis gives
    back [w], element by element, in exact rational arithmetic. *)
Theorem inflate_weight_spread (w : tensor Q) (a b c d T : nat) :
  shape w = [a; b; c; d] -> wf_tensor w -> (1 <= T)%nat ->
  exists w3,
    inflate_weight w T false = Ok w3 /\
    shape w3 = [a; b; T; c; d] /\
    (forall m, (m < T)%nat -> select2 0 w3 m = div_scalar w T) /\
    shape (sum2 w3) = shape w /\
    (forall o i h x,
       (o < a)%nat -> (i < b)%nat -> (h < c)%nat -> (x < d)%nat ->
       get 0 (sum2 w3) [o; i; h; x] == get 0 w [o; i; h; x]).
Proof.
  intros Hs Hwf HT.
  destruct (inflate_spread_get w a b c d T Hs) as (w3 & Hw3 & Hs3 & _ & Hget).
  exists w3. split; [exact Hw3|]. split; [exact Hs3|]. split; [|split].
  - intros m Hm.
    etransitivity; [|exact (build_get 0 _ (div_scalar_wf w T Hwf))].
    unfold select2. rewrite Hs3. cbn [div_scalar shape]. rewrite Hs.
    cbn [take drop app]. apply build_ext. intros idx Hr.
    rewrite (get_div_scalar w T idx) by (assumption || (rewrite Hs; exact Hr)).
    range_inv. cbn [take drop app]. by apply Hget.
  - unfold sum2. rewrite Hs3, Hs. reflexivity.
  - intros o i h x Ho Hi Hh Hx. unfold sum2. rewrite Hs3.
    cbn [take drop app nth]. rewrite get_build by range_intro.
    cbn [take drop app].
    rewrite (map_ext_in _ (fun _ => get 0 w [o; i; h; x] / inject_Z (Z.of_nat T))).
    + rewrite sum_constant, length_seq. field.
      intros E. unfold Qeq in E. cbn in E. lia.
    + intros m Hm. apply in_seq in Hm. apply Hget; lia.
Qed.

Lemma inflate_weight_spread_witness :
  exists w3,
    inflate_weight (mkTensor [1; 2; 1; 2]%nat [1; 2; 3; 4]) 2 false = Ok w3 /\
    shape w3 = [1; 2; 2; 1; 2]%nat /\
    (forall m, (m < 2)%nat ->
       select2 0 w3 m = div_scalar (mkTensor [1; 2; 1; 2]%nat [1; 2; 3; 4]) 2) /\
    shape (sum2 w3) = [1; 2; 1; 2]%nat /\
    (forall o i h x,
       (o < 1)%nat -> (i < 2)%nat -> (h < 1)%nat -> (x < 2)%nat ->
       get 0 (sum2 w3) [o; i; h; x]
       == get 0 (mkTensor [1; 2; 1; 2]%nat [1; 2; 3; 4]) [o; i; h; x]).
Proof.
  apply (inflate_weight_spread (mkTensor [1; 2; 1; 2]%nat [1; 2; 3; 4]) 1 2 1 2 2).
  - reflexivity.
  - reflexivity.
  - lia.
Defined.

End InflateSpec.

(** ** The stochastic-depth schedule *)

Module ScheduleSpec.
Import Torch VideoMamba Examples.
Local Open Scope Q_scope.

Lemma lookup_map {A B} (f : A -> B) (l : list A) (i : nat) :
  map f l !! i = f <$> l !! i.
Proof.
  revert i. induction l as [|a l IH]; intros [|i]; cbn; try reflexivity. apply IH.
Qed.

Lemma inter_dpr_lookup (r : Q) (depth i : nat) :
  (i <= depth)%nat ->
  (0 :: linspace 0 r depth) !! i = Some (inter_value r depth i).
Proof.
  intros Hi. destruct i as [|k]; [reflexivity|].
  change (linspace 0 r depth !! k = Some (inter_value r depth (S k))).
  unfold linspace. rewrite lookup_map, lookup_seq_lt by lia. reflexivity.
Qed.

Section Constructed.
Variable triton_imported : bool.
Variable proj_init : list nat -> Q.

Lemma create_block_drop_path rms res fused i dp b :
  create_block triton_imported rms res fused i dp = Ok b ->
  drop_path b = make_drop_path dp /\ layer_idx b = i.
Proof.
  unfold create_block, Block_init.
  destruct (rms && negb triton_imported); [discriminate|].
  destruct (fused && negb triton_imported); [discriminate|].
  cbn. intros [= <-]. split; reflexivity.
Qed.

Lemma create_blocks_lookup cfg inter idxs blocks :
  create_blocks triton_imported cfg inter idxs = Ok blocks ->
  length blocks = length idxs /\
  forall k i, idxs !! k = Some i ->
    exists b dp, blocks !! k = Some b /\ inter !! i = Some dp /\
                 drop_path b = make_drop_path dp /\ layer_idx b = i.
Proof.
  revert blocks. induction idxs as [|i idxs IH]; intros blocks; cbn [create_blocks].
  - intros [= <-]. split; [reflexivity|]. intros k i [=].
  - unfold list_index. destruct (inter !! i) as [dp|] eqn:Hdp; [|discriminate].
    cbn [mbind result_bind].
    destruct (create_block _ _ _ _ i dp) as [b|] eqn:Hb; [|discriminate].
    cbn [mbind result_bind].
    destruct (create_blocks _ cfg inter idxs) as [bs|]; [|discriminate].
    cbn [mbind result_bind]. intros [= <-].
    destruct (IH bs eq_refl) as [Hlen Hall].
    apply create_block_drop_path in Hb as [Hb1 Hb2].
    split; [cbn; by rewrite Hlen|].
    intros [|k] j Hj; cbn in Hj.
    + injection Hj as <-. exists b, dp. auto.
    + exact (Hall k j Hj).
Qed.

Lemma init_layers cfg m :
  VisionMamba_init triton_imported proj_init cfg = Ok m ->
  length (layers m) = cfg_depth cfg /\
  drop_path <$> layers m
  = map (fun i => make_drop_path
                    (inter_value (cfg_drop_path_rate cfg) (cfg_depth cfg) i))
        (seq 0 (cfg_depth cfg)) /\
  vm_drop_path m = make_drop_path (cfg_drop_path_rate cfg).
Proof.
  unfold VisionMamba_init.
  destruct (Dropout_init (cfg_drop_rate cfg)) as [p|]; [|discriminate].
  cbn [mbind result_bind].
  destruct (create_blocks _ cfg _ _) as [bs|] eqn:Hbs; [|discriminate].
  cbn [mbind result_bind].
  destruct (cfg_rms_norm cfg && negb triton_imported); [discriminate|].
  intros [= <-]. cbn [layers vm_drop_path].
  apply create_blocks_lookup in Hbs as [Hlen Hall].
  rewrite length_seq in Hlen. split; [exact Hlen|]. split; [|reflexivity].
  apply list_eq. intros k. rewrite list_lookup_fmap, lookup_map.
  destruct (Nat.lt_ge_cases k (cfg_depth cfg)) as [Hk|Hk].
  - rewrite lookup_seq_lt by assumption. cbn.
    destruct (Hall k k) as (b & dp & Hb & Hdp & Hdrop & _);
      [by apply lookup_seq_lt|].
    rewrite inter_dpr_lookup in Hdp by lia. injection Hdp as <-.
    rewrite Hb. cbn. by rewrite Hdrop.
  - rewrite lookup_seq_ge by assumption.
    rewrite lookup_ge_None_2 by lia. reflexivity.
Qed.

(** The rate of block [i] is the positive part of [inter_dpr[i]]. *)
Lemma block_rate_value cfg m i :
  VisionMamba_init triton_imported proj_init cfg = Ok m ->
  (i < cfg_depth cfg)%nat ->
  block_rate m i
  = drop_rate_of (make_drop_path
                    (inter_value (cfg_drop_path_rate cfg) (cfg_depth cfg) i)).
Proof.
  intros Hm Hi. apply init_layers in Hm as (_ & Hdp & _).
  apply (f_equal (fun l => l !! i)) in Hdp.
  rewrite list_lookup_fmap, lookup_map, lookup_seq_lt in Hdp by assumption.
  unfold block_rate. destruct (layers m !! i) as [b|]; cbn in Hdp; [|discriminate].
  by injection Hdp as ->.
Qed.

(** The rate a block constructed with [drop_path = v] applies. *)
Lemma rate_nonpos v : v <= 0 -> drop_rate_of (make_drop_path v) = 0.
Proof.
  intros Hv. unfold make_drop_path. destruct (Qlt_le_dec 0 v) as [H|_]; [|reflexivity].
  exfalso. lra.
Qed.

Lemma rate_pos v : 0 < v -> drop_rate_of (make_drop_path v) = v.
Proof.
  intros Hv. unfold make_drop_path. destruct (Qlt_le_dec 0 v) as [_|H]; [reflexivity|].
  exfalso. lra.
Qed.

Lemma rate_max v : drop_rate_of (make_drop_path v) == Qmax 0 v.
Proof.
  destruct (Qlt_le_dec 0 v) as [H|H].
  - rewrite rate_pos by assumption. symmetry. apply Q.max_r. lra.
  - rewrite rate_nonpos by assumption. symmetry. apply Q.max_l. assumption.
Qed.

Lemma rate_mono p q :
  p <= q -> drop_rate_of (make_drop_path p) <= drop_rate_of (make_drop_path q).
Proof.
  intros Hpq. rewrite !rate_max. apply Q.max_le_compat_l. assumption.
Qed.

Lemma step_sign_nonneg (r : Q) (n : nat) :
  0 <= r -> 0 <= (r - 0) / inject_Z (Z.of_nat n).
Proof.
  intros Hr. unfold Qdiv. apply Qmult_le_0_compat; [lra|].
  apply Qinv_le_0_compat. change 0 with (inject_Z 0). rewrite <- Zle_Qle. lia.
Qed.

Lemma inter_value_mono (r : Q) (depth i j : nat) :
  0 <= r -> (i <= j)%nat -> inter_value r depth i <= inter_value r depth j.
Proof.
  intros Hr Hij. pose proof (step_sign_nonneg r (depth - 1) Hr) as Hstep.
  assert (Hnat : forall k : nat, 0 <= inject_Z (Z.of_nat k)).
  { intros k. change 0 with (inject_Z 0). rewrite <- Zle_Qle. lia. }
  destruct i as [|a], j as [|b]; cbn [inter_value]; try lia.
  - lra.
  - pose proof (Qmult_le_0_compat _ _ (Hnat b) Hstep). lra.
  - apply Qplus_le_r, Qmult_le_compat_r; [|assumption].
    rewrite <- Zle_Qle. lia.
Qed.

Lemma inter_value_nonpos (r : Q) (depth i : nat) :
  r <= 0 -> inter_value r depth i <= 0.
Proof.
  intros Hr. destruct i as [|k]; cbn [inter_value]; [lra|].
  assert (H : 0 <= inject_Z (Z.of_nat k) * ((0 - r) / inject_Z (Z.of_nat (depth - 1)))).
  { apply Qmult_le_0_compat.
    - change 0 with (inject_Z 0). rewrite <- Zle_Qle. lia.
    - unfold Qdiv. apply Qmult_le_0_compat; [lra|].
      apply Qinv_le_0_compat. change 0 with (inject_Z 0). rewrite <- Zle_Qle. lia. }
  assert (E : inject_Z (Z.of_nat k) * ((0 - r) / inject_Z (Z.of_nat (depth - 1)))
              == - (inject_Z (Z.of_nat k) * ((r - 0) / inject_Z (Z.of_nat (depth - 1))))).
  { unfold Qdiv. ring. }
  rewrite E in H. lra.
Qed.

(** C1, as the constructor computes it: a model constructed with
    [depth >= 1] and maximum rate [r] gives block 0 the rate 0, gives block
    [i >= 1] the positive part of [(i - 1) * r / (depth - 1)], the point
    before its own on the line from 0 to [r], so that the last block has
    [(depth - 2) * r / (depth - 1)]; the rates do not decrease with the block
    index, and the maximum [r] itself is the rate of the final
    normalisation stage. *)
Theorem stochastic_depth_schedule (cfg : config) (m : VisionMamba) :
  VisionMamba_init triton_imported proj_init cfg = Ok m ->
  (1 <= cfg_depth cfg)%nat ->
  block_rate m 0 == 0 /\
  (forall i, (1 <= i < cfg_depth cfg)%nat ->
     block_rate m i
     == Qmax 0 (inject_Z (Z.of_nat (i - 1)) * cfg_drop_path_rate cfg
                / inject_Z (Z.of_nat (cfg_depth cfg - 1)))) /\
  block_rate m (cfg_depth cfg - 1)
  == Qmax 0 (inject_Z (Z.of_nat (cfg_depth cfg - 2)) * cfg_drop_path_rate cfg
             / inject_Z (Z.of_nat (cfg_depth cfg - 1))) /\
  (forall i j, (i <= j < cfg_depth cfg)%nat -> block_rate m i <= block_rate m j) /\
  drop_rate_of (vm_drop_path m) == Qmax 0 (cfg_drop_path_rate cfg).
Proof.
  intros Hm Hd.
  set (r := cfg_drop_path_rate cfg). set (D := cfg_depth cfg) in *.
  assert (Hform : forall i, (i < D)%nat ->
            block_rate m i
            == Qmax 0 (inject_Z (Z.of_nat (i - 1)) * r / inject_Z (Z.of_nat (D - 1)))).
  { intros i Hi. rewrite (block_rate_value cfg m i Hm Hi), rate_max.
    fold r D. destruct i as [|k]; cbn [inter_value Nat.sub].
    - apply Q.max_compat; [reflexivity|]. unfold Qdiv. cbn [Z.of_nat]. ring.
    - rewrite Nat.sub_0_r. apply Q.max_compat; [reflexivity|]. unfold Qdiv. ring. }
  split; [|split; [|split; [|split]]].
  - rewrite (block_rate_value cfg m 0 Hm) by lia. reflexivity.
  - intros i Hi. apply Hform. lia.
  - rewrite Hform by lia. replace (D - 1 - 1)%nat with (D - 2)%nat by lia. reflexivity.
  - intros i j Hij.
    rewrite (block_rate_value cfg m i Hm), (block_rate_value cfg m j Hm) by lia.
    fold r D. destruct (Qlt_le_dec r 0) as [Hneg|Hpos].
    + rewrite !rate_nonpos by (apply inter_value_nonpos; lra). lra.
    + apply rate_mono, inter_value_mono; [assumption|lia].
  - apply init_layers in Hm as (_ & _ & ->). apply rate_max.
Qed.

End Constructed.

Lemma stochastic_depth_schedule_witness :
  block_rate small_model 0 == 0 /\
  (forall i, (1 <= i < 3)%nat ->
     block_rate small_model i
     == Qmax 0 (inject_Z (Z.of_nat (i - 1)) * (1 # 10) / inject_Z (Z.of_nat (3 - 1)))) /\
  block_rate small_model (3 - 1)
  == Qmax 0 (inject_Z (Z.of_nat (3 - 2)) * (1 # 10) / inject_Z (Z.of_nat (3 - 1))) /\
  (forall i j, (i <= j < 3)%nat ->
     block_rate small_model i <= block_rate small_model j) /\
  drop_rate_of (vm_drop_path small_model) == Qmax 0 (1 # 10).
Proof.
  apply (stochastic_depth_schedule true (fun _ => 1) small_config small_model).
  - reflexivity.
  - cbn. lia.
Defined.

(** C1 as stated fails: with [depth = 3] and [r = 1/10] the constructor
    succeeds and the last block has the rate [1/20], not [r]. *)
Lemma last_block_rate_counterexample :
  exists m,
    VisionMamba_init true (fun _ => 1) small_config = Ok m /\
    (1 <= cfg_depth small_config)%nat /\
    block_rate m (cfg_depth small_config - 1) == 1 # 20 /\
    ~ block_rate m (cfg_depth small_config - 1) == cfg_drop_path_rate small_config.
Proof.
  eexists. split; [reflexivity|]. split; [cbn; lia|]. split.
  - vm_compute. reflexivity.
  - vm_compute. discriminate.
Qed.

End ScheduleSpec.

(** ** Python dictionaries *)

Module PyDictFacts.
Import PyDict.

Section Facts.
Context {V : Type}.
Implicit Types (d : dict V) (k : string) (v : V).

Lemma lookup_None_keys d k : dict_lookup d k = None <-> k ∉ keys d.
Proof.
  induction d as [|[k' v'] d IH]; cbn.
  - split; [intros _; apply not_elem_of_nil|reflexivity].
  - rewrite not_elem_of_cons. destruct (String.eqb_spec k' k) as [->|Hne].
    + split; [discriminate|]. intros [H _]. congruence.
    + rewrite IH. split; [intros H; split; [congruence|exact H]|intros [_ H]; exact H].
Qed.

Lemma lookup_Some_keys d k v : dict_lookup d k = Some v -> k ∈ keys d.
Proof.
  intros H. destruct (decide (k ∈ keys d)) as [Hin|Hout]; [exact Hin|].
  apply lookup_None_keys in Hout. congruence.
Qed.

Lemma keys_lookup d k : k ∈ keys d -> exists v, dict_lookup d k = Some v.
Proof.
  intros Hin. destruct (dict_lookup d k) as [v|] eqn:E; [eauto|].
  apply lookup_None_keys in E. contradiction.
Qed.

Lemma lookup_setitem d k v k' :
  dict_lookup (dict_setitem d k v) k'
  = if String.eqb k k' then Some v else dict_lookup d k'.
Proof.
  induction d as [|[k0 v0] d IH]; cbn.
  - reflexivity.
  - destruct (String.eqb_spec k0 k) as [->|Hne]; cbn.
    + destruct (String.eqb_spec k k'); reflexivity.
    + rewrite IH. destruct (String.eqb_spec k0 k') as [->|Hne'].
      * destruct (String.eqb_spec k k'); [congruence|reflexivity].
      * reflexivity.
Qed.

Lemma keys_setitem d k v v0 :
  dict_lookup d k = Some v0 -> keys (dict_setitem d k v) = keys d.
Proof.
  induction d as [|[k0 v1] d IH]; cbn; [discriminate|].
  destruct (String.eqb_spec k0 k) as [->|Hne]; cbn; [reflexivity|].
  intros H. f_equal. by apply IH.
Qed.

Lemma setitem_same d k v : dict_lookup d k = Some v -> dict_setitem d k v = d.
Proof.
  induction d as [|[k0 v1] d IH]; cbn; [discriminate|].
  destruct (String.eqb_spec k0 k) as [->|Hne].
  - by intros [= ->].
  - intros H. by rewrite IH.
Qed.

Lemma delitem_missing d k :
  dict_lookup d k = None -> dict_delitem d k = Raise KeyError.
Proof.
  induction d as [|[k0 v0] d IH]; cbn; [reflexivity|].
  destruct (String.eqb_spec k0 k); [discriminate|].
  intros H. by rewrite IH.
Qed.

Lemma delitem_present d k v :
  dict_lookup d k = Some v -> exists d', dict_delitem d k = Ok d'.
Proof.
  induction d as [|[k0 v0] d IH]; cbn; [discriminate|].
  destruct (String.eqb_spec k0 k); [eauto|].
  intros H. destruct (IH H) as [d' ->]. cbn. eauto.
Qed.

Lemma delitem_keys d k d' :
  dict_delitem d k = Ok d' ->
  forall k', k' ∈ keys d' -> k' ∈ keys d.
Proof.
  revert d'. induction d as [|[k0 v0] d IH]; intros d'; cbn; [discriminate|].
  destruct (String.eqb_spec k0 k).
  - intros [= <-] k' Hk'. by apply list_elem_of_further.
  - destruct (dict_delitem d k) as [d''|]; cbn; [|discriminate].
    intros [= <-] k' Hk'. cbn in Hk'. apply elem_of_cons in Hk' as [->|Hk'].
    + apply list_elem_of_here.
    + apply list_elem_of_further. by apply (IH d'').
Qed.

Lemma delitem_wf d k d' : wf_dict d -> dict_delitem d k = Ok d' -> wf_dict d'.
Proof.
  unfold wf_dict. revert d'. induction d as [|[k0 v0] d IH]; intros d'; cbn;
    [discriminate|].
  intros Hnd. apply NoDup_cons in Hnd as [Hk0 Hnd].
  destruct (String.eqb_spec k0 k).
  - by intros [= <-].
  - destruct (dict_delitem d k) as [d''|] eqn:E; cbn; [|discriminate].
    intros [= <-]. cbn. apply NoDup_cons. split; [|by apply IH].
    intros Hin. apply Hk0. by apply (delitem_keys d k d'').
Qed.

(** Deleting a key of a well-formed dictionary removes it and nothing else. *)
Lemma lookup_delitem d k d' k' :
  wf_dict d -> dict_delitem d k = Ok d' ->
  dict_lookup d' k' = if String.eqb k k' then None else dict_lookup d k'.
Proof.
  unfold wf_dict. revert d'. induction d as [|[k0 v0] d IH]; intros d'; cbn;
    [discriminate|].
  intros Hnd. apply NoDup_cons in Hnd as [Hk0 Hnd].
  destruct (String.eqb_spec k0 k) as [->|Hne].
  - intros [= <-]. destruct (String.eqb_spec k k') as [E|Hne'].
    + subst k'. by apply lookup_None_keys.
    + reflexivity.
  - destruct (dict_delitem d k) as [d''|] eqn:E; cbn; [|discriminate].
    intros [= <-]. cbn. rewrite (IH d'') by auto.
    destruct (String.eqb_spec k0 k') as [E'|Hne'].
    + subst k'. destruct (String.eqb_spec k k0); [congruence|reflexivity].
    + reflexivity.
Qed.

End Facts.
End PyDictFacts.

(** ** Loading a pretrained checkpoint *)

Module LoadSpec.
Import PyDict PyDictFacts Torch VideoMamba Examples.

Lemma body_entry live center sd k v :
  dict_lookup sd k = Some v ->
  load_state_dict_body live center sd k
  = (w ← entry_after live center k v; Ok (dict_setitem sd k w)).
Proof.
  intros Hk. unfold load_state_dict_body, entry_after, dict_getitem.
  rewrite Hk. pose proof (setitem_same sd k v Hk) as Hsame.
  destruct (dict_lookup live k) as [l|]; cbn [mbind result_bind];
    [|by rewrite Hsame].
  destruct (shape_eqb (shape v) (shape l)); cbn [mbind result_bind];
    [by rewrite Hsame|].
  destruct (length (shape l) <=? 3); cbn [mbind result_bind];
    [by rewrite Hsame|].
  destruct (list_index (shape l) 2); reflexivity.
Qed.

Lemma loop_ok live center ks :
  forall sd sd1,
    NoDup ks -> (forall k, k ∈ ks -> k ∈ keys sd) ->
    load_state_dict_loop live center ks sd = Ok sd1 ->
    keys sd1 = keys sd /\
    forall k v, dict_lookup sd k = Some v ->
      (k ∈ ks -> exists w, entry_after live center k v = Ok w /\
                          dict_lookup sd1 k = Some w) /\
      (k ∉ ks -> dict_lookup sd1 k = Some v).
Proof.
  induction ks as [|k0 ks IH]; intros sd sd1 Hnd Hsub; cbn [load_state_dict_loop].
  - intros [= <-]. split; [reflexivity|]. intros k v Hk. split.
    + intros Hin. by apply elem_of_nil in Hin.
    + intros _. exact Hk.
  - apply NoDup_cons in Hnd as [Hk0 Hnd].
    destruct (keys_lookup sd k0) as [v0 Hv0]; [apply Hsub, list_elem_of_here|].
    rewrite (body_entry live center sd k0 v0 Hv0).
    destruct (entry_after live center k0 v0) as [w0|] eqn:Hw0;
      cbn [mbind result_bind]; [|discriminate].
    intros Hloop.
    pose proof (keys_setitem sd k0 w0 v0 Hv0) as Hkeys.
    apply IH in Hloop as [Hkeys1 Hall]; [|assumption|].
    2:{ intros k Hk. rewrite Hkeys. apply Hsub. by apply list_elem_of_further. }
    split; [congruence|].
    intros k v Hk. destruct (decide (k = k0)) as [->|Hne].
    + assert (v = v0) as -> by congruence.
      destruct (Hall k0 w0) as [_ Hout].
      { rewrite lookup_setitem, String.eqb_refl. reflexivity. }
      split; [intros _; eauto|].
      intros Hnot. exfalso. apply Hnot, list_elem_of_here.
    + destruct (Hall k v) as [Hin Hout].
      { rewrite lookup_setitem. by destruct (String.eqb_spec k0 k); [congruence|]. }
      split.
      * intros Hk'. apply elem_of_cons in Hk' as [?|Hk']; [congruence|auto].
      * intros Hk'. apply Hout. intros ?. apply Hk'. by apply list_elem_of_further.
Qed.

Lemma loop_total live center ks :
  forall sd,
    NoDup ks -> (forall k, k ∈ ks -> k ∈ keys sd) ->
    (forall k v, k ∈ ks -> dict_lookup sd k = Some v ->
       exists w, entry_after live center k v = Ok w) ->
    exists sd1, load_state_dict_loop live center ks sd = Ok sd1.
Proof.
  induction ks as [|k0 ks IH]; intros sd Hnd Hsub Hok; cbn [load_state_dict_loop].
  - eauto.
  - apply NoDup_cons in Hnd as [Hk0 Hnd].
    destruct (keys_lookup sd k0) as [v0 Hv0]; [apply Hsub, list_elem_of_here|].
    rewrite (body_entry live center sd k0 v0 Hv0).
    destruct (Hok k0 v0) as [w0 ->]; [apply list_elem_of_here|assumption|].
    cbn [mbind result_bind]. apply IH; [assumption| |].
    + intros k Hk. rewrite (keys_setitem sd k0 w0 v0 Hv0).
      apply Hsub. by apply list_elem_of_further.
    + intros k v Hk. rewrite lookup_setitem.
      destruct (String.eqb_spec k0 k) as [->|Hne]; [contradiction|].
      apply Hok. by apply list_elem_of_further.
Qed.

Lemma shape_eqb_false s1 s2 : s1 <> s2 -> shape_eqb s1 s2 = false.
Proof. intros H. unfold shape_eqb. by apply bool_decide_eq_false. Qed.

(** The loop of [load_state_dict]: a key of the checkpoint that the live
    model also has, with a different shape, keeps its entry when the live
    parameter has rank at most 3, and gets [inflate_weight] of its entry,
    with the live parameter's third dimension as [time_dim], when the rank
    exceeds 3; every other entry is left as it is.  The loop raises only if
    one of these calls of [inflate_weight] raises. *)
Lemma loop_inflation (state_dict_3d state_dict : dict (tensor Q))
    (center : bool) :
  wf_dict state_dict ->
  ((forall k v live,
      dict_lookup state_dict k = Some v ->
      dict_lookup state_dict_3d k = Some live ->
      shape v <> shape live -> 3 < length (shape live) ->
      exists w, inflate_weight v (nth 2 (shape live) 0) center = Ok w) ->
   exists sd1,
     load_state_dict_loop state_dict_3d center (keys state_dict) state_dict
     = Ok sd1) /\
  (forall sd1,
     load_state_dict_loop state_dict_3d center (keys state_dict) state_dict
     = Ok sd1 ->
     keys sd1 = keys state_dict /\
     (forall k v live,
        dict_lookup state_dict k = Some v ->
        dict_lookup state_dict_3d k = Some live ->
        shape v <> shape live ->
        (length (shape live) <= 3 -> dict_lookup sd1 k = Some v) /\
        (3 < length (shape live) ->
         exists time_dim w,
           shape live !! 2 = Some time_dim /\
           inflate_weight v time_dim center = Ok w /\
           dict_lookup sd1 k = Some w)) /\
     (forall k v,
        dict_lookup state_dict k = Some v ->
        dict_lookup state_dict_3d k = None \/
        (exists live, dict_lookup state_dict_3d k = Some live /\
                      shape v = shape live) ->
        dict_lookup sd1 k = Some v)).
Proof.
  intros Hwf. split.
  - intros Hinfl. apply loop_total; [exact Hwf|auto|].
    intros k v _ Hk. unfold entry_after.
    destruct (dict_lookup state_dict_3d k) as [live|] eqn:Hl; [|eauto].
    destruct (shape_eqb (shape v) (shape live)) eqn:Hs; [eauto|].
    destruct (length (shape live) <=? 3) eqn:Hr; [eauto|].
    apply Nat.leb_gt in Hr. apply bool_decide_eq_false in Hs.
    destruct (Hinfl k v live Hk Hl Hs Hr) as [w Hw].
    unfold list_index. destruct (lookup_lt_is_Some_2 (shape live) 2) as [T HT]; [lia|].
    rewrite HT. cbn [mbind result_bind].
    rewrite (nth_lookup_Some _ _ 0 _ HT) in Hw. eauto.
  - intros sd1 Hloop.
    apply loop_ok in Hloop as [Hkeys Hall]; [|exact Hwf|auto].
    split; [exact Hkeys|]. split.
    + intros k v live Hk Hl Hs.
      destruct (Hall k v Hk) as [Hin _].
      destruct (Hin (lookup_Some_keys _ _ _ Hk)) as (w & Hw & Hsd1).
      unfold entry_after in Hw. rewrite Hl, shape_eqb_false in Hw by assumption.
      split.
      * intros Hr. apply Nat.leb_le in Hr. rewrite Hr in Hw. congruence.
      * intros Hr. apply Nat.leb_gt in Hr. rewrite Hr in Hw.
        unfold list_index in Hw.
        destruct (shape live !! 2) as [T|]; [|discriminate].
        cbn [mbind result_bind] in Hw. eauto.
    + intros k v Hk Hsame.
      destruct (Hall k v Hk) as [Hin _].
      destruct (Hin (lookup_Some_keys _ _ _ Hk)) as (w & Hw & Hsd1).
      unfold entry_after in Hw.
      destruct Hsame as [Hnone|(live & Hl & Hs)].
      * rewrite Hnone in Hw. congruence.
      * rewrite Hl in Hw. unfold shape_eqb in Hw.
        rewrite bool_decide_eq_true_2 in Hw by assumption. congruence.
Qed.

Lemma checkpoint_example_wf : wf_dict checkpoint_example.
Proof. unfold wf_dict. apply (bool_decide_unpack _). vm_compute. reflexivity. Qed.

(** The example checkpoint: the 4-D weight is inflated to the live time
    dimension 2 (its slice at [2 // 2] is the weight), the positional
    embedding of rank 3 is kept though its shape differs, and the head is
    dropped. *)
Example applied_state_example :
  applied_state live_example checkpoint_example true
  = Ok [ ("patch_embed.proj.weight", mkTensor [1; 1; 2; 1; 2] [0; 0; 3; 4]%Q);
         ("pos_embed", mkTensor [1; 3; 1] [1; 2; 3]%Q) ].
Proof. reflexivity. Qed.

Section Applied.
Variable Msg : Type.
Variable Module_load_state_dict : dict (tensor Q) -> result Msg.

(** C2, as the code behaves: when [load_state_dict] reaches the model, the
    state it applies holds neither [head.weight] nor [head.bias]; it reaches
    the model exactly when the loop succeeds and the checkpoint holds both
    keys, and a checkpoint that lacks one of them makes the call raise
    ([KeyError], from [del], when the loop succeeded) before anything is
    applied. *)
Theorem head_keys_dropped (state_dict_3d state_dict : dict (tensor Q))
    (center : bool) :
  wf_dict state_dict ->
  (forall applied,
     applied_state state_dict_3d state_dict center = Ok applied ->
     ("head.weight" ∉ keys applied) /\ ("head.bias" ∉ keys applied) /\
     load_state_dict Msg Module_load_state_dict state_dict_3d state_dict center
     = Module_load_state_dict applied) /\
  (forall sd1,
     load_state_dict_loop state_dict_3d center (keys state_dict) state_dict
     = Ok sd1 ->
     ("head.weight" ∈ keys state_dict -> "head.bias" ∈ keys state_dict ->
      exists applied, applied_state state_dict_3d state_dict center = Ok applied) /\
     (("head.weight" ∉ keys state_dict) \/ ("head.bias" ∉ keys state_dict) ->
      load_state_dict Msg Module_load_state_dict state_dict_3d state_dict center
      = Raise KeyError)) /\
  (("head.weight" ∉ keys state_dict) \/ ("head.bias" ∉ keys state_dict) ->
   exists e,
     load_state_dict Msg Module_load_state_dict state_dict_3d state_dict center
     = Raise e).
Proof.
  intros Hwf.
  assert (Hloop : forall sd1,
            load_state_dict_loop state_dict_3d center (keys state_dict) state_dict
            = Ok sd1 -> keys sd1 = keys state_dict /\ wf_dict sd1).
  { intros sd1 H. apply loop_ok in H as [Hk _]; [|exact Hwf|auto].
    split; [exact Hk|]. unfold wf_dict. by rewrite Hk. }
  assert (Hmissing : forall sd1,
            load_state_dict_loop state_dict_3d center (keys state_dict) state_dict
            = Ok sd1 ->
            ("head.weight" ∉ keys state_dict) \/ ("head.bias" ∉ keys state_dict) ->
            applied_state state_dict_3d state_dict center = Raise KeyError).
  { intros sd1 H Hmiss. unfold applied_state. rewrite H. cbn [mbind result_bind].
    destruct (Hloop sd1 H) as [Hk Hwf1].
    destruct (dict_lookup sd1 "head.weight") as [hw|] eqn:Ehw.
    - destruct (delitem_present sd1 _ hw Ehw) as [sd2 Hsd2].
      rewrite Hsd2. cbn [mbind result_bind].
      apply delitem_missing.
      rewrite (lookup_delitem sd1 "head.weight" sd2 "head.bias" Hwf1 Hsd2).
      cbn [String.eqb Ascii.eqb Bool.eqb].
      destruct Hmiss as [Hmiss|Hmiss].
      + exfalso. apply Hmiss. rewrite <- Hk. by apply lookup_Some_keys in Ehw.
      + apply lookup_None_keys. by rewrite Hk.
    - by rewrite (delitem_missing sd1 _ Ehw). }
  split; [|split].
  - intros applied Happ. unfold load_state_dict. rewrite Happ.
    cbn [mbind result_bind]. split; [|split; [|reflexivity]].
    + unfold applied_state in Happ.
      destruct (load_state_dict_loop _ _ _ _) as [sd1|] eqn:H; [|discriminate].
      cbn [mbind result_bind] in Happ. destruct (Hloop sd1 eq_refl) as [_ Hwf1].
      destruct (dict_delitem sd1 "head.weight") as [sd2|] eqn:H2; [|discriminate].
      cbn [mbind result_bind] in Happ.
      apply lookup_None_keys.
      rewrite (lookup_delitem sd2 "head.bias" applied "head.weight"
                 (delitem_wf _ _ _ Hwf1 H2) Happ).
      cbn [String.eqb Ascii.eqb Bool.eqb].
      rewrite (lookup_delitem sd1 "head.weight" sd2 "head.weight" Hwf1 H2).
      by rewrite String.eqb_refl.
    + unfold applied_state in Happ.
      destruct (load_state_dict_loop _ _ _ _) as [sd1|] eqn:H; [|discriminate].
      cbn [mbind result_bind] in Happ. destruct (Hloop sd1 eq_refl) as [_ Hwf1].
      destruct (dict_delitem sd1 "head.weight") as [sd2|] eqn:H2; [|discriminate].
      cbn [mbind result_bind] in Happ.
      apply lookup_None_keys.
      rewrite (lookup_delitem sd2 "head.bias" applied "head.bias"
                 (delitem_wf _ _ _ Hwf1 H2) Happ).
      by rewrite String.eqb_refl.
  - intros sd1 H. split.
    + intros Hhw Hhb. destruct (Hloop sd1 H) as [Hk Hwf1].
      unfold applied_state. rewrite H. cbn [mbind result_bind].
      rewrite <- Hk in Hhw, Hhb.
      apply keys_lookup in Hhw as [hw Ehw]. apply keys_lookup in Hhb as [hb Ehb].
      destruct (delitem_present sd1 _ hw Ehw) as [sd2 Hsd2].
      rewrite Hsd2. cbn [mbind result_bind].
      apply (delitem_present sd2 _ hb).
      rewrite (lookup_delitem sd1 "head.weight" sd2 "head.bias" Hwf1 Hsd2).
      cbn [String.eqb Ascii.eqb Bool.eqb]. exact Ehb.
    + intros Hmiss. unfold load_state_dict.
      by rewrite (Hmissing sd1 H Hmiss).
  - intros Hmiss. unfold load_state_dict.
    destruct (load_state_dict_loop state_dict_3d center (keys state_dict) state_dict)
      as [sd1|e] eqn:H.
    + exists KeyError. by rewrite (Hmissing sd1 eq_refl Hmiss).
    + exists e. unfold applied_state. rewrite H. reflexivity.
Qed.

End Applied.

Lemma head_keys_dropped_witness :
  (forall applied,
     applied_state live_example checkpoint_example true = Ok applied ->
     ("head.weight" ∉ keys applied) /\ ("head.bias" ∉ keys applied) /\
     load_state_dict unit (fun _ => Ok tt) live_example checkpoint_example true
     = Ok tt) /\
  (forall sd1,
     load_state_dict_loop live_example true (keys checkpoint_example)
                          checkpoint_example = Ok sd1 ->
     ("head.weight" ∈ keys checkpoint_example ->
      "head.bias" ∈ keys checkpoint_example ->
      exists applied,
        applied_state live_example checkpoint_example true = Ok applied) /\
     (("head.weight" ∉ keys checkpoint_example) \/
      ("head.bias" ∉ keys checkpoint_example) ->
      load_state_dict unit (fun _ => Ok tt) live_example checkpoint_example true
      = Raise KeyError)) /\
  (("head.weight" ∉ keys checkpoint_example) \/
   ("head.bias" ∉ keys checkpoint_example) ->
   exists e,
     load_state_dict unit (fun _ => Ok tt) live_example checkpoint_example true
     = Raise e).
Proof.
  apply (head_keys_dropped unit (fun _ => Ok tt) live_example checkpoint_example true).
  unfold wf_dict. apply (bool_decide_unpack _). vm_compute. reflexivity.
Defined.

(** C2 as stated fails: on a checkpoint that holds neither [head.weight]
    nor [head.bias], [load_state_dict] raises [KeyError]. *)
Lemma load_headless_checkpoint_raises :
  wf_dict headless_checkpoint /\
  ("head.weight" ∉ keys headless_checkpoint) /\
  ("head.bias" ∉ keys headless_checkpoint) /\
  load_state_dict unit (fun _ => Ok tt) live_example headless_checkpoint true
  = Raise KeyError.
Proof.
  split; [|split; [|split]].
  - unfold wf_dict. apply (bool_decide_unpack _). vm_compute. reflexivity.
  - apply lookup_None_keys. reflexivity.
  - apply lookup_None_keys. reflexivity.
  - reflexivity.
Qed.

(** What the two [del] statements leave of the loop's result. *)
Lemma applied_lookup (state_dict_3d state_dict applied : dict (tensor Q))
    (center : bool) :
  wf_dict state_dict ->
  applied_state state_dict_3d state_dict center = Ok applied ->
  exists sd1,
    load_state_dict_loop state_dict_3d center (keys state_dict) state_dict
    = Ok sd1 /\
    forall k, k <> "head.weight" -> k <> "head.bias" ->
      dict_lookup applied k = dict_lookup sd1 k.
Proof.
  intros Hwf Happ. unfold applied_state in Happ.
  destruct (load_state_dict_loop _ _ _ _) as [sd1|] eqn:Hloop; [|discriminate].
  cbn [mbind result_bind] in Happ.
  destruct (dict_delitem sd1 "head.weight") as [sd2|] eqn:H2; [|discriminate].
  cbn [mbind result_bind] in Happ.
  apply loop_ok in Hloop as [Hkeys _]; [|exact Hwf|auto].
  assert (Hwf1 : wf_dict sd1) by (unfold wf_dict; by rewrite Hkeys).
  pose proof (delitem_wf _ _ _ Hwf1 H2) as Hwf2.
  exists sd1. split; [reflexivity|]. intros k Hw Hb.
  rewrite (lookup_delitem sd2 "head.bias" applied k Hwf2 Happ).
  destruct (String.eqb_spec "head.bias" k); [congruence|].
  rewrite (lookup_delitem sd1 "head.weight" sd2 k Hwf1 H2).
  by destruct (String.eqb_spec "head.weight" k); [congruence|].
Qed.

Lemma lookup_Some_In {V} (d : dict V) (k : string) (v : V) :
  dict_lookup d k = Some v -> (k, v) ∈ d.
Proof.
  induction d as [|[k0 v0] d IH]; cbn [dict_lookup]; [discriminate|].
  destruct (String.eqb_spec k0 k) as [-> | Hne].
  - intros [= ->]. apply list_elem_of_here.
  - intros H. apply list_elem_of_further. by apply IH.
Qed.

Lemma load_param_mismatch (param input_param : tensor Q) :
  shape input_param <> shape param ->
  ~ (shape param = [] /\ length (shape input_param) = 1) ->
  load_param param input_param = Ok false.
Proof.
  intros Hs Hleg. unfold load_param.
  destruct (shape param) as [|a sp].
  - destruct (shape input_param) as [|n [|m si]].
    + congruence.
    + exfalso. apply Hleg. split; reflexivity.
    + by rewrite bool_decide_eq_false_2.
  - by rewrite bool_decide_eq_false_2.
Qed.

Lemma load_param_raises (param input_param : tensor Q) (e : exn) :
  load_param param input_param = Raise e ->
  e = IndexError /\ shape param = [] /\ shape input_param = [0].
Proof.
  unfold load_param. destruct (shape param) as [|a sp]; [|discriminate].
  destruct (shape input_param) as [|n [|m si]]; try discriminate.
  destruct (Nat.eqb_spec n 0) as [-> | Hn]; [|discriminate].
  intros [= <-]. auto.
Qed.

(** The traversal of torch's loader raises only for an empty 1-D entry
    met by a 0-D parameter, and records every entry that does not fit. *)
Lemma loader_raises (state_dict local_state : dict (tensor Q)) (e : exn) :
  torch_load_from_state_dict state_dict local_state = Raise e ->
  e = IndexError /\
  exists k v live,
    (k, live) ∈ local_state /\ dict_lookup state_dict k = Some v /\
    shape live = [] /\ shape v = [0].
Proof.
  induction local_state as [|[k0 l0] ls IH]; cbn [torch_load_from_state_dict];
    [discriminate|].
  assert (Hrest : torch_load_from_state_dict state_dict ls = Raise e ->
            e = IndexError /\
            exists k v live,
              (k, live) ∈ (k0, l0) :: ls /\ dict_lookup state_dict k = Some v /\
              shape live = [] /\ shape v = [0]).
  { intros H. destruct (IH H) as (He & k & v & live & Hin & Hrest).
    split; [exact He|]. exists k, v, live. split; [|exact Hrest].
    by apply list_elem_of_further. }
  destruct (dict_lookup state_dict k0) as [v0|] eqn:Hv0; [|exact Hrest].
  destruct (load_param l0 v0) as [c|e0] eqn:Hc; cbn [mbind result_bind].
  - destruct (torch_load_from_state_dict state_dict ls) as [errs|e1];
      cbn [mbind result_bind]; [discriminate|].
    intros [= <-]. by apply Hrest.
  - intros [= <-]. apply load_param_raises in Hc as (He & Hl & Hv).
    split; [exact He|]. exists k0, v0, l0. split; [apply list_elem_of_here|auto].
Qed.

Lemma loader_collects (state_dict local_state : dict (tensor Q))
    (error_msgs : list string) :
  torch_load_from_state_dict state_dict local_state = Ok error_msgs ->
  forall k v live,
    (k, live) ∈ local_state -> dict_lookup state_dict k = Some v ->
    load_param live v = Ok false -> k ∈ error_msgs.
Proof.
  revert error_msgs.
  induction local_state as [|[k0 l0] ls IH]; intros errs;
    cbn [torch_load_from_state_dict].
  - intros _ k v live Hin. by apply elem_of_nil in Hin.
  - intros H k v live Hin Hk Hfit.
    apply elem_of_cons in Hin as [[= -> ->] | Hin].
    + rewrite Hk, Hfit in H. cbn [mbind result_bind] in H.
      destruct (torch_load_from_state_dict state_dict ls) as [errs'|];
        cbn [mbind result_bind] in H; [|discriminate].
      injection H as <-. apply list_elem_of_here.
    + destruct (dict_lookup state_dict k0) as [v0|]; [|by eapply IH].
      destruct (load_param l0 v0) as [c|]; cbn [mbind result_bind] in H;
        [|discriminate].
      destruct (torch_load_from_state_dict state_dict ls) as [errs'|];
        cbn [mbind result_bind] in H; [|discriminate].
      injection H as <-.
      assert (k ∈ errs') by (by eapply IH).
      destruct c; [assumption|by apply list_elem_of_further].
Qed.

Section Fatal.
Variable Msg : Type.
Variable incompatible_keys : dict (tensor Q) -> dict (tensor Q) -> Msg.

(** What torch's loader does with a state that holds an entry of another
    shape than the parameter of the model. *)
Lemma loader_mismatch (state_dict_3d applied : dict (tensor Q))
    (k : string) (v live : tensor Q) :
  dict_lookup applied k = Some v -> dict_lookup state_dict_3d k = Some live ->
  shape v <> shape live ->
  ~ (shape live = [] /\ length (shape v) = 1) ->
  torch_load_state_dict Msg incompatible_keys state_dict_3d applied
  = Raise RuntimeError \/
  (torch_load_state_dict Msg incompatible_keys state_dict_3d applied
   = Raise IndexError /\
   exists k' v' live',
     (k', live') ∈ state_dict_3d /\ dict_lookup applied k' = Some v' /\
     shape live' = [] /\ shape v' = [0]).
Proof.
  intros Hk Hl Hs Hleg. unfold torch_load_state_dict.
  destruct (torch_load_from_state_dict applied state_dict_3d) as [errs|e] eqn:H;
    cbn [mbind result_bind].
  - left.
    pose proof (loader_collects _ _ _ H k v live (lookup_Some_In _ _ _ Hl) Hk
                  (load_param_mismatch live v Hs Hleg)) as Hin.
    destruct errs; [by apply elem_of_nil in Hin|reflexivity].
  - right. apply loader_raises in H as (-> & Hex). split; [reflexivity|exact Hex].
Qed.

(** X21: the loop of [load_state_dict] and what torch's loader makes of
    its result.  A key of the checkpoint that the live model also has,
    with a different shape, keeps its entry when the live parameter has
    rank at most 3, and gets [inflate_weight] of its entry, with the live
    parameter's third dimension as [time_dim], when the rank exceeds 3;
    every other entry is left as it is, and the loop raises only if one of
    these calls of [inflate_weight] raises.  An entry that is kept with its
    other shape makes the call fail all the same: unless its key is one of
    the two of the head, or the live parameter is 0-D and the entry 1-D,
    [load_state_dict] raises; when the loop and the two [del] succeed the
    entry reaches [model.load_state_dict] unchanged, which raises
    [RuntimeError] for the size mismatch, [strict=False] notwithstanding
    ([IndexError] if a 0-D parameter meets an empty 1-D entry). *)
Theorem load_state_dict_mismatch (state_dict_3d state_dict : dict (tensor Q))
    (center : bool) :
  wf_dict state_dict ->
  ((forall k v live,
      dict_lookup state_dict k = Some v ->
      dict_lookup state_dict_3d k = Some live ->
      shape v <> shape live -> 3 < length (shape live) ->
      exists w, inflate_weight v (nth 2 (shape live) 0) center = Ok w) ->
   exists sd1,
     load_state_dict_loop state_dict_3d center (keys state_dict) state_dict
     = Ok sd1) /\
  (forall sd1,
     load_state_dict_loop state_dict_3d center (keys state_dict) state_dict
     = Ok sd1 ->
     keys sd1 = keys state_dict /\
     (forall k v live,
        dict_lookup state_dict k = Some v ->
        dict_lookup state_dict_3d k = Some live ->
        shape v <> shape live ->
        (length (shape live) <= 3 -> dict_lookup sd1 k = Some v) /\
        (3 < length (shape live) ->
         exists time_dim w,
           shape live !! 2 = Some time_dim /\
           inflate_weight v time_dim center = Ok w /\
           dict_lookup sd1 k = Some w)) /\
     (forall k v,
        dict_lookup state_dict k = Some v ->
        dict_lookup state_dict_3d k = None \/
        (exists live, dict_lookup state_dict_3d k = Some live /\
                      shape v = shape live) ->
        dict_lookup sd1 k = Some v)) /\
  (forall k v live,
     dict_lookup state_dict k = Some v ->
     dict_lookup state_dict_3d k = Some live ->
     shape v <> shape live -> length (shape live) <= 3 ->
     ~ (shape live = [] /\ length (shape v) = 1) ->
     k <> "head.weight" -> k <> "head.bias" ->
     (exists e,
        load_state_dict Msg
          (torch_load_state_dict Msg incompatible_keys state_dict_3d)
          state_dict_3d state_dict center = Raise e) /\
     (forall applied,
        applied_state state_dict_3d state_dict center = Ok applied ->
        dict_lookup applied k = Some v /\
        (load_state_dict Msg
           (torch_load_state_dict Msg incompatible_keys state_dict_3d)
           state_dict_3d state_dict center = Raise RuntimeError \/
         (load_state_dict Msg
            (torch_load_state_dict Msg incompatible_keys state_dict_3d)
            state_dict_3d state_dict center = Raise IndexError /\
          exists k' v' live',
            (k', live') ∈ state_dict_3d /\ dict_lookup applied k' = Some v' /\
            shape live' = [] /\ shape v' = [0])))).
Proof.
  intros Hwf.
  destruct (loop_inflation state_dict_3d state_dict center Hwf) as [HA HB].
  split; [exact HA|]. split; [exact HB|].
  intros k v live Hk Hl Hs Hr Hleg Hw Hb.
  assert (Happlied : forall applied,
            applied_state state_dict_3d state_dict center = Ok applied ->
            dict_lookup applied k = Some v).
  { intros applied Happ.
    destruct (applied_lookup _ _ _ _ Hwf Happ) as (sd1 & Hloop & Hsame).
    rewrite (Hsame k Hw Hb).
    destruct (HB sd1 Hloop) as (_ & Hmis & _).
    by apply (Hmis k v live Hk Hl Hs). }
  assert (Hload : forall applied,
            applied_state state_dict_3d state_dict center = Ok applied ->
            load_state_dict Msg
              (torch_load_state_dict Msg incompatible_keys state_dict_3d)
              state_dict_3d state_dict center
            = torch_load_state_dict Msg incompatible_keys state_dict_3d applied).
  { intros applied Happ. unfold load_state_dict. by rewrite Happ. }
  split.
  - destruct (applied_state state_dict_3d state_dict center) as [applied|e] eqn:Happ.
    + rewrite (Hload applied eq_refl).
      destruct (loader_mismatch state_dict_3d applied k v live
                  (Happlied applied eq_refl) Hl Hs Hleg) as [-> | [-> _]]; eauto.
    + exists e. unfold load_state_dict. by rewrite Happ.
  - intros applied Happ. split; [by apply Happlied|].
    rewrite (Hload applied Happ).
    by apply loader_mismatch with (k := k) (v := v) (live := live);
      [apply Happlied| | |].
Qed.

End Fatal.

Lemma load_state_dict_mismatch_witness :
  ((forall k v live,
      dict_lookup checkpoint_example k = Some v ->
      dict_lookup live_example k = Some live ->
      shape v <> shape live -> 3 < length (shape live) ->
      exists w, inflate_weight v (nth 2 (shape live) 0) true = Ok w) ->
   exists sd1,
     load_state_dict_loop live_example true (keys checkpoint_example)
                          checkpoint_example = Ok sd1) /\
  (forall sd1,
     load_state_dict_loop live_example true (keys checkpoint_example)
                          checkpoint_example = Ok sd1 ->
     keys sd1 = keys checkpoint_example /\
     (forall k v live,
        dict_lookup checkpoint_example k = Some v ->
        dict_lookup live_example k = Some live ->
        shape v <> shape live ->
        (length (shape live) <= 3 -> dict_lookup sd1 k = Some v) /\
        (3 < length (shape live) ->
         exists time_dim w,
           shape live !! 2 = Some time_dim /\
           inflate_weight v time_dim true = Ok w /\
           dict_lookup sd1 k = Some w)) /\
     (forall k v,
        dict_lookup checkpoint_example k = Some v ->
        dict_lookup live_example k = None \/
        (exists live, dict_lookup live_example k = Some live /\
                      shape v = shape live) ->
        dict_lookup sd1 k = Some v)) /\
  (forall k v live,
     dict_lookup checkpoint_example k = Some v ->
     dict_lookup live_example k = Some live ->
     shape v <> shape live -> length (shape live) <= 3 ->
     ~ (shape live = [] /\ length (shape v) = 1) ->
     k <> "head.weight" -> k <> "head.bias" ->
     (exists e,
        load_state_dict unit (torch_load_state_dict unit (fun _ _ => tt) live_example)
          live_example checkpoint_example true = Raise e) /\
     (forall applied,
        applied_state live_example checkpoint_example true = Ok applied ->
        dict_lookup applied k = Some v /\
        (load_state_dict unit (torch_load_state_dict unit (fun _ _ => tt) live_example)
           live_example checkpoint_example true = Raise RuntimeError \/
         (load_state_dict unit (torch_load_state_dict unit (fun _ _ => tt) live_example)
            live_example checkpoint_example true = Raise IndexError /\
          exists k' v' live',
            (k', live') ∈ live_example /\ dict_lookup applied k' = Some v' /\
            shape live' = [] /\ shape v' = [0])))).
Proof.
  apply (load_state_dict_mismatch unit (fun _ _ => tt) live_example
           checkpoint_example true).
  unfold wf_dict. apply (bool_decide_unpack _). vm_compute. reflexivity.
Defined.

(** C8: the code at an input where it breaks the claim.  The positional
    embedding of the example checkpoint has another shape than the live
    one, of rank 3; the loop reports it as ignored and leaves it as it is,
    the two [del] succeed, and [model.load_state_dict] then raises
    [RuntimeError] for it: the skipped entry is fatal, where the claim (and
    the code's own message) has it skipped. *)
Lemma skipped_entry_is_fatal :
  wf_dict checkpoint_example /\
  (exists v live applied,
     dict_lookup checkpoint_example "pos_embed" = Some v /\
     dict_lookup live_example "pos_embed" = Some live /\
     shape v <> shape live /\ length (shape live) <= 3 /\
     applied_state live_example checkpoint_example true = Ok applied /\
     dict_lookup applied "pos_embed" = Some v) /\
  load_state_dict unit (torch_load_state_dict unit (fun _ _ => tt) live_example)
    live_example checkpoint_example true
  = Raise RuntimeError.
Proof.
  split; [exact checkpoint_example_wf|]. split; [|reflexivity].
  eexists _, _, _.
  split; [reflexivity|]. split; [reflexivity|].
  split; [cbn; discriminate|]. split; [cbn; lia|].
  split; reflexivity.
Qed.

End LoadSpec.

(** ** The shape of the forward pass *)

Module ForwardSpec.
Import Torch VideoMamba Examples.
Local Open Scope Q_scope.

Lemma broadcast_rev_same (l : list nat) : broadcast_rev l l = Some l.
Proof.
  induction l as [|x l IH]; cbn; [reflexivity|].
  rewrite Nat.eqb_refl, IH. reflexivity.
Qed.

Lemma add_same_shape (a b : tensor Q) :
  shape a = shape b -> exists c, add a b = Ok c /\ shape c = shape a.
Proof.
  intros H. unfold add, broadcast_shapes. rewrite <- H, broadcast_rev_same.
  eexists. split; [reflexivity|]. cbn. apply rev_involutive.
Qed.

Lemma linear_shape (weight bias x : tensor Q) (E C n : nat) :
  shape weight = [E; C] -> shape x = [n; C] ->
  exists y, linear weight bias x = Ok y /\ shape y = [n; E].
Proof.
  intros HW Hx. unfold linear, ndim. rewrite HW, Hx.
  cbn [length Nat.eqb List.last orb negb]. rewrite Nat.eqb_refl. cbn [negb].
  eexists. split; reflexivity.
Qed.

Lemma rearrange_ok (x : tensor Q) (B T c : nat) :
  shape x = [B * T; c]%nat -> (1 <= T)%nat ->
  exists y, rearrange_bt_c x T = Ok y /\ shape y = [B; T; c].
Proof.
  intros Hx HT. unfold rearrange_bt_c. rewrite Hx.
  destruct (T =? 0)%nat eqn:E; [apply Nat.eqb_eq in E; lia|].
  rewrite Nat.Div0.mod_mul. cbn [Nat.eqb negb].
  rewrite Nat.div_mul by lia. eexists. split; reflexivity.
Qed.

Lemma rearrange_indivisible (x : tensor Q) (n T c : nat) :
  shape x = [n; c] -> (1 <= T)%nat -> (n mod T)%nat <> 0%nat ->
  rearrange_bt_c x T = Raise EinopsError.
Proof.
  intros Hx HT Hmod. unfold rearrange_bt_c. rewrite Hx.
  destruct (T =? 0)%nat eqn:E; [apply Nat.eqb_eq in E; lia|].
  apply Nat.eqb_neq in Hmod. rewrite Hmod. reflexivity.
Qed.

Section Shapes.
Variable triton_imported : bool.
Context {IP : Type}.
Variable k : kernels IP.
Hypothesis Hk : shape_preserving k.

Lemma apply_drop_path_shape dp x : shape (apply_drop_path k dp x) = shape x.
Proof. destruct dp; cbn; [apply (drop_path_shape k Hk)|reflexivity]. Qed.

Lemma Block_forward_shape (b : Block) (h : tensor Q) (r : option (tensor Q))
    (ip : option IP) (ckpt : bool) :
  runnable triton_imported b ->
  (forall r', r = Some r' -> shape r' = shape h) ->
  exists h' r',
    Block_forward triton_imported k b h r ip ckpt = Ok (h', r') /\
    shape h' = shape h /\ shape r' = shape h.
Proof.
  intros Hrun Hr. unfold Block_forward.
  assert (Hmix : forall x,
            shape (if ckpt then checkpoint (mixer_forward k (layer_idx b)) x ip
                   else mixer_forward k (layer_idx b) x ip) = shape x).
  { intros x. destruct ckpt; apply (mixer_shape k Hk). }
  destruct (fused_add_norm b) eqn:Hf; cbn [negb].
  - rewrite (Hrun Hf). cbn [negb mbind result_bind].
    destruct (fused_add_norm_fn k (norm b) (Some (layer_idx b))
                (match r with
                 | Some _ => apply_drop_path k (drop_path b) h
                 | None => h
                 end) r true (residual_in_fp32 b)) as [h1 r1] eqn:Hfused.
    pose proof (fused_shape k Hk (norm b) (Some (layer_idx b))
                  (match r with
                   | Some _ => apply_drop_path k (drop_path b) h
                   | None => h
                   end) r true (residual_in_fp32 b)) as Hs.
    rewrite Hfused in Hs. cbn [fst snd] in Hs.
    assert (Hx : shape (match r with
                        | Some _ => apply_drop_path k (drop_path b) h
                        | None => h
                        end) = shape h).
    { destruct r; [apply apply_drop_path_shape|reflexivity]. }
    destruct Hs as [Hs1 Hs2].
    { intros r' ->. rewrite apply_drop_path_shape. by apply Hr. }
    eexists _, _. split; [reflexivity|].
    rewrite Hmix. split; congruence.
  - destruct r as [r0|].
    + destruct (add_same_shape r0 (apply_drop_path k (drop_path b) h)) as (c & -> & Hc).
      { rewrite apply_drop_path_shape. by apply Hr. }
      cbn [mbind result_bind]. eexists _, _. split; [reflexivity|].
      rewrite Hmix, (norm_shape k Hk), Hc. split; by apply Hr.
    + cbn [mbind result_bind]. eexists _, _. split; [reflexivity|].
      rewrite Hmix, (norm_shape k Hk). split; reflexivity.
Qed.

Lemma layers_loop_shape (m : VisionMamba) (blocks : list Block) :
  Forall (runnable triton_imported) blocks ->
  forall idx h r ip,
    (forall r', r = Some r' -> shape r' = shape h) ->
    exists h' r',
      layers_loop triton_imported k m idx blocks h r ip = Ok (h', r') /\
      shape h' = shape h /\
      (forall r'', r' = Some r'' -> shape r'' = shape h).
Proof.
  induction 1 as [|b blocks Hb _ IH]; intros idx h r ip Hr; cbn [layers_loop].
  - eexists _, _. split; [reflexivity|]. split; [reflexivity|exact Hr].
  - assert (Hstep : exists h1 r1,
              (if vm_use_checkpoint m && (Z.of_nat idx <? vm_checkpoint_num m)%Z
               then Block_forward triton_imported k b h r ip true
               else Block_forward triton_imported k b h r ip false) = Ok (h1, r1) /\
              shape h1 = shape h /\ shape r1 = shape h).
    { destruct (vm_use_checkpoint m && (Z.of_nat idx <? vm_checkpoint_num m)%Z);
        by apply Block_forward_shape. }
    destruct Hstep as (h1 & r1 & -> & Hh1 & Hr1). cbn [mbind result_bind].
    destruct (IH (S idx) h1 (Some r1) ip) as (h' & r' & Hloop & Hh' & Hr').
    { intros r' [= <-]. congruence. }
    exists h', r'. split; [exact Hloop|]. split; [congruence|].
    intros r'' E. rewrite <- Hh1. by apply Hr'.
Qed.

Lemma create_block_runnable rms res fused i dp b :
  create_block triton_imported rms res fused i dp = Ok b ->
  runnable triton_imported b /\ fused_add_norm b = fused.
Proof.
  unfold create_block, Block_init, runnable.
  destruct (rms && negb triton_imported); [discriminate|].
  destruct (fused && negb triton_imported) eqn:E; [discriminate|].
  cbn. intros [= <-]. cbn. split; [|reflexivity].
  intros ->. by destruct triton_imported.
Qed.

Lemma create_blocks_runnable cfg inter idxs blocks :
  create_blocks triton_imported cfg inter idxs = Ok blocks ->
  length blocks = length idxs /\
  Forall (fun b => runnable triton_imported b /\
                    fused_add_norm b = cfg_fused_add_norm cfg) blocks.
Proof.
  revert blocks. induction idxs as [|i idxs IH]; intros blocks; cbn [create_blocks].
  - intros [= <-]. split; [reflexivity|constructor].
  - destruct (list_index inter i) as [dp|]; [|discriminate]. cbn [mbind result_bind].
    destruct (create_block _ _ _ _ i dp) as [b|] eqn:Hb; [|discriminate].
    cbn [mbind result_bind].
    destruct (create_blocks _ cfg inter idxs) as [bs|]; [|discriminate].
    cbn [mbind result_bind]. intros [= <-].
    destruct (IH bs eq_refl) as [Hlen Hall].
    split; [cbn; by rewrite Hlen|].
    constructor; [|exact Hall]. by apply create_block_runnable in Hb.
Qed.

Variable proj_init : list nat -> Q.

(** What the forward pass needs of a constructed model. *)
Lemma init_runnable cfg m :
  VisionMamba_init triton_imported proj_init cfg = Ok m ->
  (1 <= cfg_depth cfg)%nat ->
  shape (embedding_weight m) = [cfg_embed_dim cfg; cfg_output_evo_num_channels cfg] /\
  sequence_length m = cfg_num_tokens cfg /\
  Forall (runnable triton_imported) (layers m) /\
  (vm_fused_add_norm m = true -> triton_imported = true).
Proof.
  unfold VisionMamba_init. intros Hm Hd.
  destruct (Dropout_init (cfg_drop_rate cfg)) as [p|]; [|discriminate].
  cbn [mbind result_bind] in Hm.
  destruct (create_blocks _ cfg _ _) as [bs|] eqn:Hbs; [|discriminate].
  cbn [mbind result_bind] in Hm.
  destruct (cfg_rms_norm cfg && negb triton_imported); [discriminate|].
  injection Hm as <-. cbn.
  apply create_blocks_runnable in Hbs as [Hlen Hall]. rewrite length_seq in Hlen.
  split; [reflexivity|]. split; [reflexivity|]. split.
  - eapply Forall_impl; [exact Hall|]. by intros b [Hb _].
  - destruct bs as [|b bs]; [cbn in Hlen; lia|].
    apply Forall_cons in Hall as [[Hb Hf] _]. intros E. apply Hb. congruence.
Qed.

(** C4: a constructed encoder (with at least one block and one token per
    sequence) maps an input of [B * tokens] rows of [output_evo_num_channels]
    features to a tensor of shape [(B, tokens, embed_dim)]; when the number
    of rows is not a multiple of [tokens] the call raises the shape error of
    the reshape step. *)
Theorem forward_shape (cfg : config) (m : VisionMamba) :
  VisionMamba_init triton_imported proj_init cfg = Ok m ->
  (1 <= cfg_depth cfg)%nat -> (1 <= cfg_num_tokens cfg)%nat ->
  (forall x ip B,
     shape x = [B * cfg_num_tokens cfg; cfg_output_evo_num_channels cfg]%nat ->
     exists y,
       forward triton_imported k m x ip = Ok y /\
       shape y = [B; cfg_num_tokens cfg; cfg_embed_dim cfg]) /\
  (forall x ip n,
     shape x = [n; cfg_output_evo_num_channels cfg] ->
     (n mod cfg_num_tokens cfg)%nat <> 0%nat ->
     forward triton_imported k m x ip = Raise EinopsError).
Proof.
  intros Hm Hd HT.
  destruct (init_runnable cfg m Hm Hd) as (HW & Hseq & Hrun & Hfused).
  split.
  - intros x ip B Hx. unfold forward, forward_features.
    destruct (linear_shape _ (embedding_bias m) x _ _ _ HW Hx) as (x1 & -> & Hx1).
    cbn [mbind result_bind]. rewrite Hseq.
    destruct (rearrange_ok x1 B _ _ Hx1 HT) as (x2 & -> & Hx2).
    cbn [mbind result_bind].
    destruct (layers_loop_shape m (layers m) Hrun 0
                (dropout_forward k (pos_drop m) x2) None ip)
      as (h & r & -> & Hh & Hr); [discriminate|].
    cbn [mbind result_bind]. rewrite (dropout_shape k Hk) in Hh, Hr.
    destruct (vm_fused_add_norm m) eqn:Hf; cbn [negb].
    + rewrite (Hfused eq_refl). cbn [negb]. eexists. split; [reflexivity|].
      destruct (fused_shape k Hk (norm_f m) None
                  (apply_drop_path k (vm_drop_path m) h) r false
                  (vm_residual_in_fp32 m)) as [Hs _].
      { intros r' ->. rewrite apply_drop_path_shape. rewrite Hh. by apply Hr. }
      rewrite Hs, apply_drop_path_shape. congruence.
    + destruct r as [r0|].
      * destruct (add_same_shape r0 (apply_drop_path k (vm_drop_path m) h))
          as (c & -> & Hc).
        { rewrite apply_drop_path_shape, Hh. by apply Hr. }
        cbn [mbind result_bind]. eexists. split; [reflexivity|].
        rewrite (norm_shape k Hk), Hc, (Hr r0 eq_refl). exact Hx2.
      * cbn [mbind result_bind]. eexists. split; [reflexivity|].
        rewrite (norm_shape k Hk). congruence.
  - intros x ip n Hx Hmod. unfold forward, forward_features.
    destruct (linear_shape _ (embedding_bias m) x _ _ _ HW Hx) as (x1 & -> & Hx1).
    cbn [mbind result_bind]. rewrite Hseq.
    by rewrite (rearrange_indivisible x1 n _ _ Hx1 HT Hmod).
Qed.

End Shapes.

Lemma identity_kernels_shape : shape_preserving identity_kernels.
Proof. constructor; intros; cbn; auto. Qed.

Lemma forward_shape_witness :
  (forall x ip B,
     shape x = [B * 2; 4]%nat ->
     exists y,
       forward true identity_kernels small_model x ip = Ok y /\
       shape y = [B; 2; 2]%nat) /\
  (forall x ip n,
     shape x = [n; 4]%nat -> (n mod 2)%nat <> 0%nat ->
     forward true identity_kernels small_model x ip
     = Raise EinopsError).
Proof.
  apply (forward_shape true identity_kernels identity_kernels_shape (fun _ => 1)
           small_config small_model).
  - reflexivity.
  - cbn. lia.
  - cbn. lia.
Defined.

End ForwardSpec.

(** ** Parameter grouping *)

Module OptimizersSpec.
Import Optimizers Examples.

(** *** Dotted names *)

Lemma split_dot_nonempty s : split_dot s <> [].
Proof.
  destruct s as [|c s]; cbn; [discriminate|].
  destruct (Ascii.eqb c "."); [discriminate|].
  destruct (split_dot s); discriminate.
Qed.

Lemma split_dot_dotless s : dotless s = true -> split_dot s = [s].
Proof.
  unfold dotless. induction s as [|c s IH]; cbn; [reflexivity|].
  intros H. apply andb_true_iff in H as [Hc Hs].
  apply negb_true_iff in Hc. rewrite Hc, (IH Hs). reflexivity.
Qed.

Lemma split_dot_app a b :
  split_dot (a ++ String "."%char b) = split_dot a ++ split_dot b.
Proof.
  induction a as [|c a IH].
  - reflexivity.
  - change (split_dot (String c (a ++ String "."%char b)%string)
            = split_dot (String c a) ++ split_dot b).
    cbn [split_dot].
    destruct (Ascii.eqb c "."); [by rewrite IH|].
    rewrite IH. pose proof (split_dot_nonempty a).
    destruct (split_dot a); [contradiction|reflexivity].
Qed.

Lemma valid_name_inv s :
  valid_name s = true -> s <> EmptyString /\ dotless s = true.
Proof.
  unfold valid_name. intros H. apply andb_true_iff in H as [Hne Hd].
  split; [|exact Hd]. apply negb_true_iff in Hne. by apply String.eqb_neq.
Qed.

Lemma prefix_of_snoc path n :
  prefix_of (path ++ [n]) = join_prefix (prefix_of path) n.
Proof. unfold prefix_of. by rewrite fold_left_app. Qed.

Lemma join_prefix_split pre n :
  dotless n = true ->
  split_dot (join_prefix pre n)
  = match pre with
    | EmptyString => [n]
    | _ => split_dot pre ++ [n]
    end.
Proof.
  intros Hn. destruct pre as [|c pre]; cbn [join_prefix].
  - by apply split_dot_dotless.
  - change (String c pre ++ "." ++ n)%string
      with (String c pre ++ String "."%char n)%string.
    by rewrite split_dot_app, (split_dot_dotless n Hn).
Qed.

Lemma join_prefix_nonempty pre n : n <> EmptyString -> join_prefix pre n <> EmptyString.
Proof. destruct pre; cbn; [auto|discriminate]. Qed.

Lemma prefix_of_split path :
  Forall (fun n => valid_name n = true) path ->
  match path with
  | [] => prefix_of path = EmptyString
  | _ => prefix_of path <> EmptyString /\ split_dot (prefix_of path) = path
  end.
Proof.
  induction path as [|n path IH] using rev_ind; [reflexivity|].
  intros Hall. apply Forall_app in Hall as [Hpath Hn].
  apply Forall_singleton, valid_name_inv in Hn as [Hne Hd].
  specialize (IH Hpath). rewrite prefix_of_snoc.
  assert (Hgoal : join_prefix (prefix_of path) n <> EmptyString /\
                  split_dot (join_prefix (prefix_of path) n) = path ++ [n]).
  { split; [by apply join_prefix_nonempty|].
    rewrite join_prefix_split by assumption.
    destruct path as [|n0 path].
    - by rewrite IH.
    - destruct IH as [Hpre ->]. by destruct (prefix_of (n0 :: path)). }
  by destruct path.
Qed.

(** Splitting the name of a parameter gives the path of its module and
    its key. *)
Lemma split_parameter_name path key :
  Forall (fun n => valid_name n = true) path -> valid_name key = true ->
  split_dot (join_prefix (prefix_of path) key) = path ++ [key].
Proof.
  intros Hpath Hkey.
  pose proof (prefix_of_split (path ++ [key])) as H.
  rewrite prefix_of_snoc in H.
  destruct (path ++ [key]) eqn:E; [by destruct path|].
  apply H. rewrite <- E. apply Forall_app. split; [assumption|by apply Forall_singleton].
Qed.

(** *** Association lists *)

Lemma assoc_In {V} (l : list (string * V)) k v : assoc l k = Some v -> In (k, v) l.
Proof.
  induction l as [|[k' v'] l IH]; cbn; [discriminate|].
  destruct (String.eqb_spec k' k) as [->|Hne].
  - intros [= ->]. by left.
  - intros H. right. by apply IH.
Qed.

Lemma assoc_None {V} (l : list (string * V)) k :
  ~ In k (map fst l) -> assoc l k = None.
Proof.
  induction l as [|[k' v'] l IH]; cbn; [reflexivity|].
  intros H. destruct (String.eqb_spec k' k) as [->|Hne]; [tauto|].
  apply IH. tauto.
Qed.

Lemma assoc_NoDup {V} (l : list (string * V)) k v :
  List.NoDup (map fst l) -> In (k, v) l -> assoc l k = Some v.
Proof.
  induction l as [|[k' v'] l IH]; cbn; [tauto|].
  intros Hnd. inversion Hnd as [|? ? Hk' Hnd']; subst.
  intros [[= -> ->]|Hin].
  - by rewrite String.eqb_refl.
  - destruct (String.eqb_spec k' k) as [->|Hne]; [|by apply IH].
    exfalso. apply Hk'. apply in_map_iff. by exists (k, v).
Qed.

(** *** The module tree *)

(** Induction on a module with the property known for its children. *)
Lemma Module_induction (P : Module -> Prop) :
  (forall t ps ms, List.Forall (fun nc => P (snd nc)) ms -> P (mkModule t ps ms)) ->
  forall m, P m.
Proof.
  intros Hstep. fix IH 1. intros [t ps ms]. apply Hstep.
  induction ms as [|[n c] ms IHms]; constructor; [apply IH|exact IHms].
Qed.

Lemma named_modules_unfold prefix m :
  named_modules prefix m
  = (prefix, m)
    :: flat_map (fun nc => named_modules (join_prefix prefix (fst nc)) (snd nc))
                (modules m).
Proof.
  destruct m as [t ps ms]. cbn [named_modules modules]. f_equal.
  induction ms as [|[n c] ms IH]; cbn; [reflexivity|]. by rewrite IH.
Qed.

Lemma wf_module_inv m :
  wf_module m = true ->
  List.Forall (fun n => valid_name n = true)
              (map fst (parameters m) ++ map fst (modules m)) /\
  List.NoDup (map fst (parameters m) ++ map fst (modules m)) /\
  List.Forall (fun nc => wf_module (snd nc) = true) (modules m).
Proof.
  destruct m as [t ps ms]. cbn [wf_module parameters modules].
  intros H. apply andb_true_iff in H as [H Hc]. apply andb_true_iff in H as [Hv Hnd].
  split; [|split].
  - apply List.Forall_forall. by apply forallb_forall.
  - apply bool_decide_eq_true in Hnd. by apply NoDup_ListNoDup.
  - clear Hv Hnd. induction ms as [|[n c] ms IH]; [constructor|].
    apply andb_true_iff in Hc as [Hc Hms]. constructor; [exact Hc|by apply IH].
Qed.

Lemma named_modules_descend m :
  wf_module m = true ->
  forall path0 pre md,
    In (pre, md) (named_modules (prefix_of path0) m) ->
    exists path,
      List.Forall (fun n => valid_name n = true) path /\
      pre = prefix_of (path0 ++ path) /\
      descend m path = Some md /\
      wf_module md = true.
Proof.
  induction m as [t ps ms IH] using Module_induction.
  intros Hwf path0 pre md. rewrite named_modules_unfold. cbn [modules].
  destruct (wf_module_inv _ Hwf) as (Hvalid & Hnd & Hchildren).
  cbn [parameters modules] in Hvalid, Hnd, Hchildren.
  apply List.Forall_app in Hvalid as [_ Hvalid].
  apply NoDup_app_remove_l in Hnd.
  intros [[= <- <-]|Hin].
  - exists []. rewrite app_nil_r. repeat split; [constructor|exact Hwf].
  - apply in_flat_map in Hin as ([n c] & Hnc & Hin). cbn [fst snd] in Hin.
    rewrite List.Forall_forall in IH, Hchildren, Hvalid.
    assert (Hn : valid_name n = true).
    { apply Hvalid, in_map_iff. by exists (n, c). }
    rewrite <- prefix_of_snoc in Hin.
    destruct (IH (n, c) Hnc (Hchildren (n, c) Hnc) (path0 ++ [n]) pre md Hin)
      as (path & Hpath & -> & Hdesc & Hmod).
    exists (n :: path). split; [by constructor|]. split; [by rewrite <- app_assoc|].
    split; [|exact Hmod].
    cbn [descend modules]. by rewrite (assoc_NoDup ms n c Hnd Hnc).
Qed.

(** Walking the names of a path with [getattr] reaches the same module. *)
Lemma get_parent_descend path :
  forall m md,
    wf_module m = true -> descend m path = Some md ->
    get_parent (ObjModule m) path = Ok (ObjModule md).
Proof.
  induction path as [|n path IH]; intros m md Hwf; cbn [descend get_parent].
  - by intros [= ->].
  - destruct (assoc (modules m) n) as [c|] eqn:Hc; [|discriminate].
    intros Hdesc. destruct (wf_module_inv _ Hwf) as (_ & Hnd & Hchildren).
    apply assoc_In in Hc as Hin.
    unfold getattr. rewrite assoc_None, Hc.
    + cbn [mbind result_bind]. apply IH; [|exact Hdesc].
      rewrite List.Forall_forall in Hchildren. exact (Hchildren (n, c) Hin).
    + intros Hp. apply NoDup_ListNoDup in Hnd.
      apply (proj1 (NoDup_app _ _)) in Hnd as (_ & Hdisj & _).
      apply (Hdisj n); [by apply list_elem_of_In|].
      apply list_elem_of_In, in_map_iff. by exists (n, c).
Qed.

(** *** The traversal *)

Lemma members_resolve model x :
  wf_module model = true ->
  In x (flat_map members_of (named_modules EmptyString model)) ->
  resolves model x.
Proof.
  intros Hwf Hin. apply in_flat_map in Hin as ([pre md] & Hmd & Hx).
  destruct (named_modules_descend model Hwf [] pre md Hmd)
    as (path & Hpath & -> & Hdesc & Hwfmd).
  unfold members_of in Hx. cbn [fst snd] in Hx.
  apply list_elem_of_In, list_elem_of_omap in Hx as ([key v] & Hkv & Hsome).
  cbn [fst snd] in Hsome. destruct v as [p|]; [|discriminate].
  injection Hsome as <-.
  exists path. cbn [m_prefix m_owner m_key]. repeat split; try assumption.
  destruct (wf_module_inv _ Hwfmd) as (Hvalid & _ & _).
  rewrite List.Forall_forall in Hvalid. apply Hvalid, in_or_app. left.
  apply in_map_iff. exists (key, Some p). split; [reflexivity|].
  by apply list_elem_of_In.
Qed.

Lemma remove_duplicate_In memo l x : In x (remove_duplicate memo l) -> In x l.
Proof.
  revert memo. induction l as [|y l IH]; intros memo; cbn [remove_duplicate];
    [tauto|].
  destruct (bool_decide (param_id (m_param y) ∈ memo)).
  - intros H. right. by apply (IH memo).
  - intros [->|H]; [by left|]. right. by apply (IH _ H).
Qed.

Lemma remove_duplicate_NoDup memo l :
  List.NoDup (map (fun x => param_id (m_param x)) (remove_duplicate memo l)) /\
  forall x, In x (remove_duplicate memo l) -> param_id (m_param x) ∉ memo.
Proof.
  revert memo. induction l as [|y l IH]; intros memo; cbn [remove_duplicate].
  - split; [constructor|]. intros x [].
  - destruct (bool_decide (param_id (m_param y) ∈ memo)) eqn:E; [apply IH|].
    apply bool_decide_eq_false in E.
    destruct (IH (param_id (m_param y) :: memo)) as [Hnd Hout].
    split.
    + cbn [map]. constructor; [|exact Hnd].
      intros Hin. apply in_map_iff in Hin as (x & Hid & Hx).
      apply (Hout x Hx). rewrite Hid. apply list_elem_of_here.
    + intros x [<-|Hx]; [exact E|].
      intros Hmemo. apply (Hout x Hx). by apply list_elem_of_further.
Qed.

(** *** The buckets *)

Lemma isinstance_norm_imported m :
  isinstance_norm true (ObjModule m) = Ok (is_norm_type (mtype m)).
Proof. by destruct m as [[] ps ms]. Qed.

Lemma bucket_member model x params params_no_wd :
  wf_module model = true -> resolves model x ->
  bucket true model (join_prefix (m_prefix x) (m_key x)) (m_param x)
         params params_no_wd
  = Ok (if no_decay x then (params, params_no_wd ++ [m_param x])
        else (params ++ [m_param x], params_no_wd)).
Proof.
  intros Hwf (path & Hpath & Hpre & Hdesc & Hkey). unfold bucket, no_decay.
  rewrite Hpre, (split_parameter_name path (m_key x) Hpath Hkey).
  rewrite removelast_last, last_last.
  rewrite (get_parent_descend path model (m_owner x) Hwf Hdesc).
  cbn [mbind result_bind]. rewrite isinstance_norm_imported.
  cbn [mbind result_bind].
  destruct (is_norm_type (mtype (m_owner x)) || String.eqb (m_key x) "bias");
    cbn [orb]; [reflexivity|].
  by destruct (no_weight_decay (m_param x)).
Qed.

Lemma bucket_loop_members model (ms : list member) :
  wf_module model = true ->
  List.Forall (resolves model) ms ->
  forall params params_no_wd,
    bucket_loop true model
      (map (fun x => (join_prefix (m_prefix x) (m_key x), m_param x)) ms)
      params params_no_wd
    = Ok (params ++ map m_param (List.filter (fun x => negb (no_decay x)) ms),
          params_no_wd ++ map m_param (List.filter no_decay ms)).
Proof.
  intros Hwf. induction 1 as [|x ms Hx _ IH]; intros params params_no_wd;
    cbn [map bucket_loop List.filter].
  - by rewrite !app_nil_r.
  - rewrite (bucket_member model x params params_no_wd Hwf Hx).
    destruct (no_decay x); cbn [mbind result_bind negb map]; rewrite IH.
    + by rewrite <- app_assoc.
    + by rewrite <- app_assoc.
Qed.

Lemma filter_partition {A} (f : A -> bool) (l : list A) :
  Permutation (List.filter (fun x => negb (f x)) l ++ List.filter f l) l.
Proof.
  induction l as [|x l IH]; cbn; [constructor|].
  destruct (f x); cbn.
  - by rewrite <- Permutation_middle, IH.
  - by rewrite IH.
Qed.

(** C7: on a well-formed module tree, with [RMSNorm] imported,
    [build_optimizer_and_scheduler] returns two buckets that partition the
    named parameters: the no-decay bucket holds, in traversal order, exactly
    the parameters whose owning module is a [LayerNorm] or an [RMSNorm], or
    whose last name component is ["bias"], or that carry the
    [_no_weight_decay] marker; the decay bucket holds the others, in
    traversal order; no parameter is in both or twice. *)
Theorem parameter_grouping (model : Module) :
  wf_module model = true ->
  exists params params_no_wd,
    build_optimizer_and_scheduler true model = Ok (params, params_no_wd) /\
    params_no_wd = map m_param (List.filter no_decay (named_members model)) /\
    params = map m_param (List.filter (fun x => negb (no_decay x))
                                      (named_members model)) /\
    Permutation (params ++ params_no_wd) (map snd (named_parameters model)) /\
    List.NoDup (map param_id (params ++ params_no_wd)).
Proof.
  intros Hwf. unfold build_optimizer_and_scheduler, named_parameters.
  assert (Hres : List.Forall (resolves model) (named_members model)).
  { apply List.Forall_forall. intros x Hx. apply members_resolve; [exact Hwf|].
    by apply remove_duplicate_In in Hx. }
  rewrite (bucket_loop_members model _ Hwf Hres [] []). cbn [app].
  eexists _, _. split; [reflexivity|]. split; [reflexivity|]. split; [reflexivity|].
  assert (Hperm : Permutation
            (map m_param (List.filter (fun x => negb (no_decay x)) (named_members model))
             ++ map m_param (List.filter no_decay (named_members model)))
            (map m_param (named_members model))).
  { rewrite <- map_app. apply Permutation_map, filter_partition. }
  split.
  - rewrite Hperm, map_map. reflexivity.
  - apply NoDup_ListNoDup. rewrite Hperm, map_map. apply NoDup_ListNoDup.
    apply (remove_duplicate_NoDup [] _).
Qed.

Lemma parameter_grouping_witness :
  exists params params_no_wd,
    build_optimizer_and_scheduler true sample_model = Ok (params, params_no_wd) /\
    params_no_wd = map m_param (List.filter no_decay (named_members sample_model)) /\
    params = map m_param (List.filter (fun x => negb (no_decay x))
                                      (named_members sample_model)) /\
    Permutation (params ++ params_no_wd) (map snd (named_parameters sample_model)) /\
    List.NoDup (map param_id (params ++ params_no_wd)).
Proof.
  apply (parameter_grouping sample_model). reflexivity.
Defined.

(** The buckets of the small encoder, by parameter identity. *)
Example sample_model_buckets :
  (fun r => (map param_id (fst r), map param_id (snd r)))
    <$> build_optimizer_and_scheduler true sample_model
  = Ok ([0; 3; 4; 9], [1; 2; 5; 6; 7; 8; 10]).
Proof. reflexivity. Qed.

(** Without the import of [RMSNorm] the isinstance test raises on the
    first module that is not a [LayerNorm]. *)
Example sample_model_without_RMSNorm :
  build_optimizer_and_scheduler false sample_model = Raise TypeError.
Proof. reflexivity. Qed.

End OptimizersSpec.

(** ** src/utils.py: further properties *)

Module UtilsExtra.
Import Utils UtilsSpec.

Lemma randint_pos tape n pos :
  n <> 0 -> randint tape n pos = Ok (tape pos mod n, S pos).
Proof.
  intros Hn. unfold randint. destruct (n =? 0) eqn:E; [|reflexivity].
  apply Nat.eqb_eq in E. contradiction.
Qed.

Ltac table_lookup :=
  match goal with
  | |- context [dict_get LETTER_TO_BASES ?x] =>
      let v := eval vm_compute in (dict_get LETTER_TO_BASES x) in
      change (dict_get LETTER_TO_BASES x) with v
  end.

(** Whatever is drawn, a letter of the table is encoded as one of the
    bases it stands for. *)
Lemma body_table tape x pos :
  In x (map fst LETTER_TO_BASES) ->
  exists c,
    unambiguous c /\ stands_for x c /\
    dna_to_tensor_body tape x pos = Ok (enc c, S pos).
Proof.
  intros Hx. cbn in Hx.
  repeat (destruct Hx as [<-|Hx]); [..|contradiction];
    unfold dna_to_tensor_body, stands_for; table_lookup;
    cbn [mbind result_bind String.length];
    (rewrite randint_pos by discriminate); cbn [mbind result_bind];
    match goal with
    | |- context [tape pos mod ?n] =>
        pose proof (Nat.mod_upper_bound (tape pos) n ltac:(discriminate)) as Hr;
        generalize dependent (tape pos mod n); intros r Hr
    end;
    repeat (destruct r as [|r];
            [match goal with
             | |- context [str_index ?ch (Z.of_nat ?n)] =>
                 let c := eval vm_compute in
                   (match String.get n ch with Some c => c | None => "A"%char end) in
                 exists c
             end;
             split; [unfold unambiguous; auto 6|];
             split; [eexists; split; [reflexivity|cbn; auto 6]|];
             vm_compute; reflexivity |]);
    exfalso; lia.
Qed.

Lemma dict_get_missing {V} (d : list (ascii * V)) x :
  ~ In x (map fst d) -> dict_get d x = Raise KeyError.
Proof.
  induction d as [|[k v] d IH]; cbn [dict_get map fst]; [reflexivity|].
  intros H. destruct (Ascii.eqb_spec k x) as [->|Hne].
  - exfalso. apply H. by left.
  - apply IH. intros Hin. apply H. by right.
Qed.

Lemma body_unknown tape x pos :
  ~ table_letter x -> dna_to_tensor_body tape x pos = Raise KeyError.
Proof.
  intros H. unfold dna_to_tensor_body. by rewrite (dict_get_missing _ x H).
Qed.

Lemma dna_to_tensor_loop_table tape dna :
  Forall table_letter dna ->
  forall sequence pos,
    exists cs,
      Forall unambiguous cs /\ Forall2 stands_for dna cs /\
      dna_to_tensor_loop tape dna sequence pos
      = Ok (sequence ++ map enc cs, pos + length dna).
Proof.
  induction 1 as [|x dna Hx _ IH]; intros sequence pos; cbn [dna_to_tensor_loop].
  - exists []. rewrite app_nil_r, Nat.add_0_r. repeat split; constructor.
  - destruct (body_table tape x pos Hx) as (c & Hc & Hxc & ->).
    cbn [mbind result_bind].
    destruct (IH (sequence ++ [enc c]) (S pos)) as (cs & Hcs & Hall & ->).
    exists (c :: cs). split; [by constructor|]. split; [by constructor|].
    rewrite <- app_assoc. cbn. do 2 f_equal. lia.
Qed.

Lemma length_chars (s : string) :
  length (list_ascii_of_string s) = String.length s.
Proof. induction s as [|c s IH]; cbn; [reflexivity|]. by rewrite IH. Qed.

(** X1: every letter of the table, ambiguity codes included, is encoded as
    the index of a base it stands for, whatever the generator draws: the
    call succeeds, consumes one draw for each letter, and decoding the
    result gives a string of the same length that resolves each letter. *)
Theorem dna_to_tensor_resolves (tape : nat -> nat) (s : string) (eos : Z)
    (pos : nat) :
  Forall table_letter (list_ascii_of_string s) ->
  ~ (0 <= eos <= 3)%Z ->
  exists t s',
    dna_to_tensor tape s pos = Ok (t, pos + String.length s) /\
    shape t = [String.length s] /\
    tensor_to_dna t eos = Ok s' /\
    Forall2 stands_for (list_ascii_of_string s) (list_ascii_of_string s').
Proof.
  intros Hs Heos. unfold dna_to_tensor.
  destruct (dna_to_tensor_loop_table tape _ Hs [] pos) as (cs & Hcs & Hall & ->).
  cbn [mbind result_bind app].
  assert (Hlen : length cs = String.length s).
  { rewrite <- (Forall2_length _ _ _ Hall). apply length_chars. }
  rewrite length_chars.
  eexists _, (string_of_list_ascii cs). split; [reflexivity|].
  cbn [shape]. rewrite length_map. split; [by rewrite Hlen|].
  split.
  - unfold tensor_to_dna. cbn [ndim shape data length Nat.eqb negb].
    rewrite eos_guard by assumption.
    by rewrite tensor_to_dna_loop_enc.
  - by rewrite list_ascii_of_string_of_list_ascii.
Qed.

Lemma dna_to_tensor_resolves_witness :
  exists t s',
    dna_to_tensor (fun n => 5 * n + 2) "ANRY" 0 = Ok (t, 0 + 4) /\
    shape t = [4] /\
    tensor_to_dna t 4 = Ok s' /\
    Forall2 stands_for (list_ascii_of_string "ANRY") (list_ascii_of_string s').
Proof.
  apply (dna_to_tensor_resolves (fun n => 5 * n + 2) "ANRY" 4 0).
  - unfold table_letter. cbn.
    repeat first [apply List.Forall_nil | apply List.Forall_cons]; auto 20.
  - lia.
Defined.

Lemma dna_to_tensor_loop_unknown tape dna :
  Exists (fun x => ~ table_letter x) dna ->
  forall sequence pos,
    dna_to_tensor_loop tape dna sequence pos = Raise KeyError.
Proof.
  induction dna as [|x dna IH]; intros Hex sequence pos; [by inversion Hex|].
  cbn [dna_to_tensor_loop].
  destruct (in_dec ascii_dec x (map fst LETTER_TO_BASES)) as [Hin|Hout].
  - destruct (body_table tape x pos Hin) as (c & _ & _ & ->).
    cbn [mbind result_bind]. apply IH.
    inversion Hex as [? ? Hbad|? ? Hrest]; subst; [contradiction|assumption].
  - by rewrite body_unknown.
Qed.

(** X2: a string with a letter outside the table (a lower-case letter,
    a gap, [U]) makes [dna_to_tensor] raise [KeyError], whatever the other
    letters and the draws are. *)
Theorem dna_to_tensor_unknown_letter (tape : nat -> nat) (s : string) (pos : nat) :
  Exists (fun x => ~ table_letter x) (list_ascii_of_string s) ->
  dna_to_tensor tape s pos = Raise KeyError.
Proof.
  intros H. unfold dna_to_tensor. by rewrite dna_to_tensor_loop_unknown.
Qed.

Lemma dna_to_tensor_unknown_letter_witness :
  dna_to_tensor (fun n => n) "ACgT" 0 = Raise KeyError.
Proof.
  apply (dna_to_tensor_unknown_letter (fun n => n) "ACgT" 0).
  cbn. do 2 apply Exists_cons_tl. apply Exists_cons_hd.
  unfold table_letter. cbn. intros H.
  repeat (destruct H as [H|H]; [discriminate|]). exact H.
Defined.

Lemma tensor_to_dna_loop_eos pre rest eos :
  forall dna,
    tensor_to_dna_loop (pre ++ eos :: rest) eos dna
    = tensor_to_dna_loop pre eos dna.
Proof.
  induction pre as [|z pre IH]; intros dna; cbn [app tensor_to_dna_loop].
  - by rewrite Z.eqb_refl.
  - destruct (z =? eos)%Z; [reflexivity|].
    destruct (str_index INDEX_TO_BASE z); cbn [mbind result_bind]; [apply IH|reflexivity].
Qed.

(** X3: decoding stops at the first [eos]: the elements after it are never
    read, so a sequence and its part before an [eos] decode alike (to the
    same string or the same exception). *)
Theorem tensor_to_dna_stops_at_eos (pre rest : list Z) (eos : Z) :
  tensor_to_dna (mkTensor [length (pre ++ eos :: rest)] (pre ++ eos :: rest)) eos
  = tensor_to_dna (mkTensor [length pre] pre) eos.
Proof.
  unfold tensor_to_dna. cbn [ndim shape data length Nat.eqb negb].
  destruct (existsb (Z.eqb eos) (map snd BASE_TO_INDEX)); [reflexivity|].
  by rewrite tensor_to_dna_loop_eos.
Qed.

Lemma index_is_enc z :
  (0 <= z <= 3)%Z -> exists c, unambiguous c /\ z = enc c.
Proof.
  intros Hz. unfold unambiguous.
  assert (z = 0 \/ z = 1 \/ z = 2 \/ z = 3)%Z as H by lia.
  destruct H as [-> | [-> | [-> | ->]]].
  - exists "A"%char. auto.
  - exists "C"%char. auto.
  - exists "G"%char. auto.
  - exists "T"%char. auto 6.
Qed.

Lemma indices_are_enc (l : list Z) :
  Forall (fun z => (0 <= z <= 3)%Z) l ->
  exists cs, Forall unambiguous cs /\ l = map enc cs.
Proof.
  induction 1 as [|z l Hz _ IH]; [by exists []|].
  destruct IH as (cs & Hcs & ->).
  destruct (index_is_enc z Hz) as (c & Hc & ->).
  exists (c :: cs). split; [by constructor|reflexivity].
Qed.

(** X4: the other round trip: a 1-D tensor of indices in [0 .. 3] decodes
    to a string that every run of [dna_to_tensor] encodes back to the same
    tensor. *)
Theorem decode_encode_roundtrip (t : tensor Z) (eos : Z) :
  ndim t = 1 -> wf_tensor t ->
  Forall (fun z => (0 <= z <= 3)%Z) (data t) ->
  ~ (0 <= eos <= 3)%Z ->
  exists s,
    tensor_to_dna t eos = Ok s /\
    forall tape pos,
      dna_to_tensor tape s pos = Ok (t, pos + length (data t)).
Proof.
  intros Hnd Hwf Hdata Heos. destruct t as [sh l]. unfold ndim, wf_tensor in *.
  cbn [shape data] in *.
  destruct sh as [|n [|? ?]]; try discriminate. cbn in Hwf.
  rewrite Nat.mul_1_r in Hwf. subst n.
  destruct (indices_are_enc l Hdata) as (cs & Hcs & ->).
  exists (string_of_list_ascii cs). split.
  - unfold tensor_to_dna. cbn [ndim shape data length Nat.eqb negb].
    rewrite eos_guard by assumption. by rewrite tensor_to_dna_loop_enc.
  - intros tape pos. unfold dna_to_tensor.
    rewrite list_ascii_of_string_of_list_ascii.
    rewrite dna_to_tensor_loop_unambiguous by assumption.
    cbn [mbind result_bind app]. by rewrite !length_map.
Qed.

Lemma decode_encode_roundtrip_witness :
  exists s,
    tensor_to_dna (mkTensor [5] [2; 0; 3; 3; 1]%Z) 4 = Ok s /\
    forall tape pos,
      dna_to_tensor tape s pos = Ok (mkTensor [5] [2; 0; 3; 3; 1]%Z, pos + 5).
Proof.
  apply (decode_encode_roundtrip (mkTensor [5] [2; 0; 3; 3; 1]%Z) 4).
  - reflexivity.
  - reflexivity.
  - cbn. repeat first [apply List.Forall_nil | apply List.Forall_cons]; lia.
  - lia.
Defined.

Lemma str_index_wrap z :
  (-4 <= z <= 3)%Z -> str_index INDEX_TO_BASE z = Ok (wrap_base z).
Proof.
  intros Hz.
  assert (z = -4 \/ z = -3 \/ z = -2 \/ z = -1 \/ z = 0 \/ z = 1 \/ z = 2 \/ z = 3)%Z
    as H by lia.
  destruct H as [-> | [-> | [-> | [-> | [-> | [-> | [-> | ->]]]]]]]; reflexivity.
Qed.

Lemma str_index_out_of_range z :
  ~ (-4 <= z <= 3)%Z -> str_index INDEX_TO_BASE z = Raise IndexError.
Proof.
  intros Hz. unfold str_index.
  change (Z.of_nat (String.length INDEX_TO_BASE)) with 4%Z. cbv zeta.
  destruct (z <? 0)%Z eqn:Hneg.
  - apply Z.ltb_lt in Hneg.
    destruct (0 <=? z + 4)%Z eqn:E; [apply Z.leb_le in E; lia|reflexivity].
  - apply Z.ltb_ge in Hneg.
    destruct (z <? 4)%Z eqn:E; [apply Z.ltb_lt in E; lia|].
    by rewrite andb_false_r.
Qed.

Lemma tensor_to_dna_loop_wrap eos (l : list Z) :
  Forall (fun z => (-4 <= z <= 3)%Z /\ z <> eos) l ->
  forall dna,
    tensor_to_dna_loop l eos dna = Ok (dna ++ map wrap_base l).
Proof.
  induction 1 as [|z l [Hz Hne] _ IH]; intros dna; cbn [tensor_to_dna_loop map].
  - by rewrite app_nil_r.
  - apply Z.eqb_neq in Hne. rewrite Hne, (str_index_wrap z Hz).
    cbn [mbind result_bind]. rewrite IH, <- app_assoc. reflexivity.
Qed.

(** X5: the indices [-4 .. -1] are accepted and wrap around as Python
    string subscripts do: a 1-D tensor of indices in [-4 .. 3] without the
    [eos] decodes, without error, to the bases at the indices modulo 4. *)
Theorem tensor_to_dna_wraps_negative (t : tensor Z) (eos : Z) :
  ndim t = 1 ->
  Forall (fun z => (-4 <= z <= 3)%Z /\ z <> eos) (data t) ->
  ~ (0 <= eos <= 3)%Z ->
  tensor_to_dna t eos = Ok (string_of_list_ascii (map wrap_base (data t))).
Proof.
  intros Hnd Hdata Heos. unfold tensor_to_dna. rewrite Hnd.
  cbn [Nat.eqb negb]. rewrite eos_guard by assumption.
  by rewrite tensor_to_dna_loop_wrap.
Qed.

Lemma tensor_to_dna_wraps_negative_witness :
  tensor_to_dna (mkTensor [4] [-1; 0; -4; 2]%Z) 9
  = Ok (string_of_list_ascii (map wrap_base [-1; 0; -4; 2]%Z)).
Proof.
  apply (tensor_to_dna_wraps_negative (mkTensor [4] [-1; 0; -4; 2]%Z) 9).
  - reflexivity.
  - cbn. repeat first [apply List.Forall_nil | apply List.Forall_cons]; lia.
  - lia.
Defined.

Lemma tensor_to_dna_loop_bad eos pre z rest :
  Forall (fun z => (-4 <= z <= 3)%Z /\ z <> eos) pre ->
  ~ (-4 <= z <= 3)%Z -> z <> eos ->
  forall dna,
    tensor_to_dna_loop (pre ++ z :: rest) eos dna = Raise IndexError.
Proof.
  intros Hpre Hz Hne.
  induction Hpre as [|y pre [Hy Hyne] _ IH]; intros dna;
    cbn [app tensor_to_dna_loop].
  - apply Z.eqb_neq in Hne. by rewrite Hne, (str_index_out_of_range z Hz).
  - apply Z.eqb_neq in Hyne. rewrite Hyne, (str_index_wrap y Hy).
    cbn [mbind result_bind]. apply IH.
Qed.

(** X6: an index outside [-4 .. 3] that is met before any [eos] makes
    [tensor_to_dna] raise [IndexError]. *)
Theorem tensor_to_dna_index_error (t : tensor Z) (eos z : Z)
    (pre rest : list Z) :
  ndim t = 1 -> data t = pre ++ z :: rest ->
  Forall (fun z => (-4 <= z <= 3)%Z /\ z <> eos) pre ->
  ~ (-4 <= z <= 3)%Z -> z <> eos -> ~ (0 <= eos <= 3)%Z ->
  tensor_to_dna t eos = Raise IndexError.
Proof.
  intros Hnd Hdata Hpre Hz Hne Heos. unfold tensor_to_dna. rewrite Hnd, Hdata.
  cbn [Nat.eqb negb]. rewrite eos_guard by assumption.
  by rewrite tensor_to_dna_loop_bad.
Qed.

Lemma tensor_to_dna_index_error_witness :
  tensor_to_dna (mkTensor [3] [1; 4; 0]%Z) 9 = Raise IndexError.
Proof.
  apply (tensor_to_dna_index_error (mkTensor [3] [1; 4; 0]%Z) 9 4 [1]%Z [0]%Z).
  - reflexivity.
  - reflexivity.
  - repeat first [apply List.Forall_nil | apply List.Forall_cons]; lia.
  - lia.
  - lia.
  - lia.
Defined.

(** X7: [random_roll] has no result on an empty tensor: the draw of a
    shift below 0 raises. *)
Theorem random_roll_empty {A} (tape : nat -> nat) (s : tensor A) (pos : nat) :
  shape s = [0] -> random_roll tape s pos = Raise RuntimeError.
Proof.
  intros Hs. unfold random_roll, ndim. rewrite Hs. reflexivity.
Qed.

Lemma random_roll_empty_witness :
  random_roll (fun n => n) (mkTensor [0] (@nil Z)) 0 = Raise RuntimeError.
Proof.
  apply (random_roll_empty (fun n => n) (mkTensor [0] (@nil Z)) 0). reflexivity.
Defined.

End UtilsExtra.

(** ** src/experimental/optimizers.py: further properties *)

Module OptimizersExtra.
Import Optimizers OptimizersSpec Examples.

Section Warmup.
Local Open Scope Q_scope.

(** X8: with a positive [warmup], [linear_warmup] is a ramp: on steps
    [0 <= step <= step'] it returns factors [0 <= q <= q' <= 1]; the factor
    is 0 at step 0, [step / warmup] before [warmup], and 1 from [warmup]
    on. *)
Theorem linear_warmup_ramp (warmup step step' : Z) :
  (0 < warmup)%Z -> (0 <= step <= step')%Z ->
  exists q q',
    linear_warmup step warmup = Ok q /\
    linear_warmup step' warmup = Ok q' /\
    0 <= q /\ q <= q' /\ q' <= 1 /\
    (step = 0%Z -> q == 0) /\
    ((step < warmup)%Z -> q == inject_Z step / inject_Z warmup) /\
    ((warmup <= step)%Z -> q == 1).
Proof.
  intros Hw Hs. unfold linear_warmup.
  destruct (warmup =? 0)%Z eqn:E; [apply Z.eqb_eq in E; lia|].
  eexists _, _. split; [reflexivity|]. split; [reflexivity|].
  assert (Hpos : 0 < inject_Z warmup).
  { change 0 with (inject_Z 0). rewrite <- Zlt_Qlt. lia. }
  assert (Hinv : 0 <= / inject_Z warmup) by (apply Qinv_le_0_compat; lra).
  unfold Qdiv. repeat split.
  - apply Qmult_le_0_compat; [|exact Hinv].
    change 0 with (inject_Z 0). rewrite <- Zle_Qle. lia.
  - apply Qmult_le_compat_r; [|exact Hinv]. rewrite <- Zle_Qle. lia.
  - apply Qle_shift_div_r; [exact Hpos|]. rewrite Qmult_1_l, <- Zle_Qle. lia.
  - intros ->. rewrite Z.min_l by lia. cbn. ring.
  - intros Hlt. by rewrite Z.min_l by lia.
  - intros Hge. rewrite Z.min_r by lia. field. lra.
Qed.

Lemma linear_warmup_ramp_witness :
  exists q q',
    linear_warmup 3 10 = Ok q /\
    linear_warmup 12 10 = Ok q' /\
    0 <= q /\ q <= q' /\ q' <= 1 /\
    (3%Z = 0%Z -> q == 0) /\
    ((3 < 10)%Z -> q == inject_Z 3 / inject_Z 10) /\
    ((10 <= 3)%Z -> q == 1).
Proof.
  apply (linear_warmup_ramp 10 3 12); lia.
Defined.

End Warmup.

(** *** When [RMSNorm] could not be imported *)

Lemma isinstance_norm_unimported m :
  isinstance_norm false (ObjModule m)
  = match mtype m with
    | LayerNormT => Ok true
    | _ => Raise TypeError
    end.
Proof. by destruct m as [[] ps ms]. Qed.

Lemma bucket_member_unimported model x params params_no_wd :
  wf_module model = true -> resolves model x ->
  bucket false model (join_prefix (m_prefix x) (m_key x)) (m_param x)
         params params_no_wd
  = match mtype (m_owner x) with
    | LayerNormT => Ok (params, params_no_wd ++ [m_param x])
    | _ => Raise TypeError
    end.
Proof.
  intros Hwf (path & Hpath & Hpre & Hdesc & Hkey). unfold bucket.
  rewrite Hpre, (split_parameter_name path (m_key x) Hpath Hkey).
  rewrite removelast_last, last_last.
  rewrite (get_parent_descend path model (m_owner x) Hwf Hdesc).
  cbn [mbind result_bind]. rewrite isinstance_norm_unimported.
  by destruct (mtype (m_owner x)).
Qed.

Lemma bucket_loop_unimported model (ms : list member) :
  wf_module model = true ->
  List.Forall (resolves model) ms ->
  forall params params_no_wd,
    (List.Forall (fun x => mtype (m_owner x) = LayerNormT) ms ->
     bucket_loop false model
       (map (fun x => (join_prefix (m_prefix x) (m_key x), m_param x)) ms)
       params params_no_wd
     = Ok (params, params_no_wd ++ map m_param ms)) /\
    (List.Exists (fun x => mtype (m_owner x) <> LayerNormT) ms ->
     bucket_loop false model
       (map (fun x => (join_prefix (m_prefix x) (m_key x), m_param x)) ms)
       params params_no_wd
     = Raise TypeError).
Proof.
  intros Hwf. induction 1 as [|x ms Hx _ IH]; intros params params_no_wd;
    cbn [map bucket_loop].
  - split; [intros _; by rewrite app_nil_r|]. intros H. inversion H.
  - rewrite (bucket_member_unimported model x params params_no_wd Hwf Hx).
    split.
    + intros Hall. inversion Hall as [|? ? Hln Hrest]; subst. rewrite Hln.
      cbn [mbind result_bind].
      rewrite (proj1 (IH params (params_no_wd ++ [m_param x])) Hrest).
      by rewrite <- app_assoc.
    + intros Hex. destruct (mtype (m_owner x)) eqn:Hty; try reflexivity.
      cbn [mbind result_bind]. apply IH.
      inversion Hex as [? ? Hbad|? ? Hrest]; subst; [congruence|assumption].
Qed.

(** X9: when the import of [RMSNorm] failed, the grouping works only for
    a model all of whose parameters sit directly in [LayerNorm] modules
    (every parameter then goes undecayed); as soon as one named parameter
    is held by another module, [build_optimizer_and_scheduler] raises
    [TypeError] from [isinstance]. *)
Theorem grouping_without_RMSNorm (model : Module) :
  wf_module model = true ->
  (List.Forall (fun x => mtype (m_owner x) = LayerNormT) (named_members model) ->
   build_optimizer_and_scheduler false model
   = Ok ([], map snd (named_parameters model))) /\
  (List.Exists (fun x => mtype (m_owner x) <> LayerNormT) (named_members model) ->
   build_optimizer_and_scheduler false model = Raise TypeError).
Proof.
  intros Hwf. unfold build_optimizer_and_scheduler, named_parameters.
  assert (Hres : List.Forall (resolves model) (named_members model)).
  { apply List.Forall_forall. intros x Hx. apply members_resolve; [exact Hwf|].
    by apply remove_duplicate_In in Hx. }
  destruct (bucket_loop_unimported model _ Hwf Hres [] []) as [Hall Hex].
  split.
  - intros H. rewrite (Hall H), map_map. reflexivity.
  - exact Hex.
Qed.

Lemma grouping_without_RMSNorm_witness :
  (List.Forall (fun x => mtype (m_owner x) = LayerNormT)
               (named_members sample_model) ->
   build_optimizer_and_scheduler false sample_model
   = Ok ([], map snd (named_parameters sample_model))) /\
  (List.Exists (fun x => mtype (m_owner x) <> LayerNormT)
               (named_members sample_model) ->
   build_optimizer_and_scheduler false sample_model = Raise TypeError).
Proof.
  apply (grouping_without_RMSNorm sample_model). reflexivity.
Defined.

(** *** No parameter of the tree is lost *)

Lemma remove_duplicate_covers memo (l : list member) x :
  In x l ->
  param_id (m_param x) ∈ memo \/
  In (param_id (m_param x))
     (map (fun y => param_id (m_param y)) (remove_duplicate memo l)).
Proof.
  revert memo. induction l as [|y l IH]; intros memo; cbn [remove_duplicate];
    [tauto|].
  intros [->|Hin].
  - destruct (bool_decide (param_id (m_param x) ∈ memo)) eqn:E.
    + left. by apply bool_decide_eq_true in E.
    + right. by left.
  - destruct (bool_decide (param_id (m_param y) ∈ memo)) eqn:E.
    + by apply IH.
    + destruct (IH (param_id (m_param y) :: memo) Hin) as [Hm|Hr].
      * apply elem_of_cons in Hm as [Heq|Hm]; [|by left].
        right. left. by rewrite Heq.
      * right. by right.
Qed.

(** X10: every parameter held by a module of the tree, at any depth, is in
    one of the two buckets that [build_optimizer_and_scheduler] returns. *)
Theorem every_parameter_grouped (model : Module) :
  wf_module model = true ->
  exists params params_no_wd,
    build_optimizer_and_scheduler true model = Ok (params, params_no_wd) /\
    forall prefix md key p,
      In (prefix, md) (named_modules EmptyString model) ->
      In (key, Some p) (parameters md) ->
      In (param_id p) (map param_id (params ++ params_no_wd)).
Proof.
  intros Hwf. unfold build_optimizer_and_scheduler, named_parameters.
  assert (Hres : List.Forall (resolves model) (named_members model)).
  { apply List.Forall_forall. intros x Hx. apply members_resolve; [exact Hwf|].
    by apply remove_duplicate_In in Hx. }
  rewrite (bucket_loop_members model _ Hwf Hres [] []). cbn [app].
  eexists _, _. split; [reflexivity|].
  intros prefix md key p Hmd Hp.
  assert (Hx : In (mkMember prefix md key p)
                  (flat_map members_of (named_modules EmptyString model))).
  { apply in_flat_map. exists (prefix, md). split; [exact Hmd|].
    unfold members_of. apply list_elem_of_In, list_elem_of_omap.
    exists (key, Some p). split; [by apply list_elem_of_In|reflexivity]. }
  destruct (remove_duplicate_covers [] _ _ Hx) as [Hm|Hin].
  { by apply elem_of_nil in Hm. }
  cbn [m_param] in Hin. fold (named_members model) in Hin.
  rewrite <- map_app, map_map.
  eapply Permutation_in; [|exact Hin].
  apply Permutation_map. symmetry. apply filter_partition.
Qed.

Lemma every_parameter_grouped_witness :
  exists params params_no_wd,
    build_optimizer_and_scheduler true sample_model = Ok (params, params_no_wd) /\
    forall prefix md key p,
      In (prefix, md) (named_modules EmptyString sample_model) ->
      In (key, Some p) (parameters md) ->
      In (param_id p) (map param_id (params ++ params_no_wd)).
Proof.
  apply (every_parameter_grouped sample_model). reflexivity.
Defined.

End OptimizersExtra.

(** ** Weight inflation: further properties *)

Module InflateExtra.
Import Torch VideoMamba InflateSpec.
Local Open Scope Q_scope.

Lemma sum_indicator (v : Q) (k s n : nat) :
  foldr Qplus 0 (map (fun m => if Nat.eqb m k then v else 0) (seq s n))
  == if Nat.leb s k && Nat.ltb k (s + n) then v else 0.
Proof.
  revert s. induction n as [|n IH]; intros s; cbn [seq map foldr].
  - destruct (Nat.leb_spec s k), (Nat.ltb_spec k (s + 0)); cbn [andb];
      try reflexivity. lia.
  - rewrite IH. replace (s + S n)%nat with (S s + n)%nat by lia.
    destruct (Nat.eqb_spec s k), (Nat.leb_spec (S s) k),
      (Nat.ltb_spec k (S s + n)), (Nat.leb_spec s k);
      cbn [andb]; try lia; ring.
Qed.

(** X11: the centred inflation also keeps the sum over the temporal axis:
    for a 4-D weight and [time_dim >= 1], summing the result of
    [inflate_weight] with [center=True] over its temporal axis gives back
    the weight, element by element. *)
Theorem inflate_center_temporal_sum (w : tensor Q) (a b c d T : nat) :
  shape w = [a; b; c; d] -> (1 <= T)%nat ->
  exists w3,
    inflate_weight w T true = Ok w3 /\
    shape (sum2 w3) = shape w /\
    forall o i h x,
      (o < a)%nat -> (i < b)%nat -> (h < c)%nat -> (x < d)%nat ->
      get 0 (sum2 w3) [o; i; h; x] == get 0 w [o; i; h; x].
Proof.
  intros Hs HT.
  destruct (inflate_center_get w a b c d T Hs HT) as (w3 & Hw3 & Hs3 & _ & Hget).
  exists w3. split; [exact Hw3|]. split.
  - unfold sum2. rewrite Hs3, Hs. reflexivity.
  - intros o i h x Ho Hi Hh Hx. unfold sum2. rewrite Hs3.
    cbn [take drop app nth]. rewrite get_build by range_intro.
    cbn [take drop app].
    rewrite (map_ext_in _ (fun m => if Nat.eqb m (T / 2)
                                    then get 0 w [o; i; h; x] else 0)).
    + rewrite sum_indicator. pose proof (half_lt T HT) as Hhalf.
      cbn [Nat.leb Nat.add andb].
      destruct (Nat.ltb_spec (T / 2) T); [reflexivity|lia].
    + intros m Hm. apply in_seq in Hm. apply Hget; lia.
Qed.

Lemma inflate_center_temporal_sum_witness :
  exists w3,
    inflate_weight (mkTensor [1; 2; 1; 2]%nat [1; 2; 3; 4]) 3 true = Ok w3 /\
    shape (sum2 w3) = [1; 2; 1; 2]%nat /\
    forall o i h x,
      (o < 1)%nat -> (i < 2)%nat -> (h < 1)%nat -> (x < 2)%nat ->
      get 0 (sum2 w3) [o; i; h; x]
      == get 0 (mkTensor [1; 2; 1; 2]%nat [1; 2; 3; 4]) [o; i; h; x].
Proof.
  apply (inflate_center_temporal_sum (mkTensor [1; 2; 1; 2]%nat [1; 2; 3; 4])
           1 2 1 2 3).
  - reflexivity.
  - lia.
Defined.

(** X12: a time dimension of 0: with [center=True] the assignment of the
    middle slice raises [IndexError]; with [center=False] the call returns
    an empty tensor of shape [(a, b, 0, c, d)] and no division error. *)
Theorem inflate_weight_no_frames (w : tensor Q) (a b c d : nat) :
  shape w = [a; b; c; d] ->
  inflate_weight w 0 true = Raise IndexError /\
  exists w3,
    inflate_weight w 0 false = Ok w3 /\
    shape w3 = [a; b; 0; c; d]%nat /\ data w3 = [].
Proof.
  intros Hs. split.
  - unfold inflate_weight. rewrite Hs. cbn [zeros mbind result_bind].
    rewrite (unsqueeze2_4d _ a b c d) by reflexivity. cbn [mbind result_bind].
    rewrite (repeat_time 0 _ a b c d 0) by reflexivity. cbn [mbind result_bind].
    unfold set_slice2, ndim. rewrite build_shape. reflexivity.
  - destruct (inflate_spread_get w a b c d 0 Hs) as (w3 & Hw3 & Hs3 & Hwf & _).
    exists w3. split; [exact Hw3|]. split; [exact Hs3|].
    unfold wf_tensor in Hwf. rewrite Hs3 in Hwf. cbn [numel] in Hwf.
    rewrite Nat.mul_0_l, !Nat.mul_0_r in Hwf.
    by destruct (data w3).
Qed.

Lemma inflate_weight_no_frames_witness :
  inflate_weight (mkTensor [1; 2; 1; 2]%nat [1; 2; 3; 4]) 0 true
  = Raise IndexError /\
  exists w3,
    inflate_weight (mkTensor [1; 2; 1; 2]%nat [1; 2; 3; 4]) 0 false = Ok w3 /\
    shape w3 = [1; 2; 0; 1; 2]%nat /\ data w3 = [].
Proof.
  apply (inflate_weight_no_frames (mkTensor [1; 2; 1; 2]%nat [1; 2; 3; 4]) 1 2 1 2).
  reflexivity.
Defined.

(** X13: [inflate_weight] raises on every weight of rank below 2 or above
    4: [unsqueeze(2)] rejects the former ([torch.zeros] a weight without
    dimensions), [repeat] with five sizes the latter. *)
Theorem inflate_weight_bad_rank (w : tensor Q) (T : nat) (center : bool) :
  (ndim w < 2)%nat \/ (5 <= ndim w)%nat ->
  inflate_weight w T center
  = Raise (if (5 <=? ndim w)%nat then RuntimeError
           else if center && (ndim w =? 0)%nat then TypeError
           else IndexError).
Proof.
  intros H. destruct w as [sh l]. unfold ndim in *. cbn [shape] in *.
  destruct sh as [|a [|b [|c [|d [|e rest]]]]]; cbn [length] in H; try lia.
  - destruct center; reflexivity.
  - destruct center; reflexivity.
  - destruct center; reflexivity.
Qed.

Lemma inflate_weight_bad_rank_witness :
  inflate_weight (mkTensor [3]%nat [1; 2; 3]) 2 true
  = Raise (if (5 <=? 1)%nat then RuntimeError
           else if true && (1 =? 0)%nat then TypeError
           else IndexError).
Proof.
  apply (inflate_weight_bad_rank (mkTensor [3]%nat [1; 2; 3]) 2 true).
  left. cbn. lia.
Defined.

End InflateExtra.

(** ** Loading a pretrained checkpoint: further properties *)

Module LoadExtra.
Import PyDict PyDictFacts Torch VideoMamba Examples LoadSpec InflateSpec.

Lemma filter_absent (k : string) (l : list string) :
  k ∉ l -> List.filter (fun k' => negb (String.eqb k k')) l = l.
Proof.
  induction l as [|k0 l IH]; cbn [List.filter]; [reflexivity|].
  intros H. apply not_elem_of_cons in H as [Hne Hl].
  destruct (String.eqb_spec k k0); [contradiction|]. cbn [negb].
  by rewrite IH.
Qed.

Lemma delitem_keys_filter {V} (d d' : dict V) (k : string) :
  wf_dict d -> dict_delitem d k = Ok d' ->
  keys d' = List.filter (fun k' => negb (String.eqb k k')) (keys d).
Proof.
  unfold wf_dict. revert d'.
  induction d as [|[k0 v0] d IH]; intros d'; cbn [dict_delitem keys map fst];
    [discriminate|].
  intros Hnd. apply NoDup_cons in Hnd as [Hk0 Hnd]. cbn [List.filter].
  destruct (String.eqb_spec k0 k) as [->|Hne].
  - intros [= <-]. rewrite String.eqb_refl. cbn [negb].
    symmetry. by apply filter_absent.
  - destruct (dict_delitem d k) as [d''|] eqn:E; cbn [mbind result_bind];
      [|discriminate].
    intros [= <-]. destruct (String.eqb_spec k k0); [congruence|].
    cbn [negb keys map fst]. f_equal. by apply IH.
Qed.

(** X14: the state handed to the model keeps every key of the checkpoint
    other than the two of the head, in the checkpoint's order, and each
    with the value the loop left. *)
Theorem applied_state_keys (state_dict_3d state_dict applied : dict (tensor Q))
    (center : bool) :
  wf_dict state_dict ->
  applied_state state_dict_3d state_dict center = Ok applied ->
  keys applied
  = List.filter (fun k => negb (String.eqb "head.bias" k))
      (List.filter (fun k => negb (String.eqb "head.weight" k)) (keys state_dict)) /\
  exists sd1,
    load_state_dict_loop state_dict_3d center (keys state_dict) state_dict
    = Ok sd1 /\
    forall k, k <> "head.weight" -> k <> "head.bias" ->
      dict_lookup applied k = dict_lookup sd1 k.
Proof.
  intros Hwf Happ. unfold applied_state in Happ.
  destruct (load_state_dict_loop _ _ _ _) as [sd1|] eqn:Hloop; [|discriminate].
  cbn [mbind result_bind] in Happ.
  destruct (dict_delitem sd1 "head.weight") as [sd2|] eqn:H2; [|discriminate].
  cbn [mbind result_bind] in Happ.
  apply loop_ok in Hloop as [Hkeys _]; [|exact Hwf|auto].
  assert (Hwf1 : wf_dict sd1) by (unfold wf_dict; by rewrite Hkeys).
  pose proof (delitem_wf _ _ _ Hwf1 H2) as Hwf2.
  split.
  - rewrite (delitem_keys_filter sd2 applied _ Hwf2 Happ).
    rewrite (delitem_keys_filter sd1 sd2 _ Hwf1 H2). by rewrite Hkeys.
  - exists sd1. split; [reflexivity|]. intros k Hw Hb.
    rewrite (lookup_delitem sd2 "head.bias" applied k Hwf2 Happ).
    destruct (String.eqb_spec "head.bias" k); [congruence|].
    rewrite (lookup_delitem sd1 "head.weight" sd2 k Hwf1 H2).
    by destruct (String.eqb_spec "head.weight" k); [congruence|].
Qed.

Lemma applied_state_keys_witness :
  keys [ ("patch_embed.proj.weight", mkTensor [1; 1; 2; 1; 2] [0; 0; 3; 4]%Q);
         ("pos_embed", mkTensor [1; 3; 1] [1; 2; 3]%Q) ]
  = List.filter (fun k => negb (String.eqb "head.bias" k))
      (List.filter (fun k => negb (String.eqb "head.weight" k))
                   (keys checkpoint_example)) /\
  exists sd1,
    load_state_dict_loop live_example true (keys checkpoint_example)
                         checkpoint_example = Ok sd1 /\
    forall k, k <> "head.weight" -> k <> "head.bias" ->
      dict_lookup
        [ ("patch_embed.proj.weight", mkTensor [1; 1; 2; 1; 2] [0; 0; 3; 4]%Q);
          ("pos_embed", mkTensor [1; 3; 1] [1; 2; 3]%Q) ] k
      = dict_lookup sd1 k.
Proof.
  apply (applied_state_keys live_example checkpoint_example _ true).
  - unfold wf_dict. apply (bool_decide_unpack _). vm_compute. reflexivity.
  - reflexivity.
Defined.

Lemma inflate_weight_shape (v w : tensor Q) (a b c d T : nat) (center : bool) :
  shape v = [a; b; c; d] -> inflate_weight v T center = Ok w ->
  shape w = [a; b; T; c; d].
Proof.
  intros Hs Hw. destruct center.
  - destruct T as [|T].
    + unfold inflate_weight in Hw. rewrite Hs in Hw.
      cbn [zeros mbind result_bind] in Hw.
      rewrite (unsqueeze2_4d _ a b c d) in Hw by reflexivity.
      cbn [mbind result_bind] in Hw.
      rewrite (repeat_time 0%Q _ a b c d 0) in Hw by reflexivity.
      cbn [mbind result_bind] in Hw. discriminate.
    + destruct (inflate_center_get v a b c d (S T) Hs) as (w3 & Hw3 & Hs3 & _);
        [lia|]. congruence.
  - destruct (inflate_spread_get v a b c d T Hs) as (w3 & Hw3 & Hs3 & _).
    congruence.
Qed.

(** X15: inflation makes the shapes agree: when the loop succeeds, a 4-D
    entry of shape [(a, b, c, d)] whose live parameter has the shape
    [(a, b, T, c, d)] is replaced by [inflate_weight] of itself with
    [time_dim = T], and the new entry has the live parameter's shape. *)
Theorem inflated_entry_fits (state_dict_3d state_dict sd1 : dict (tensor Q))
    (center : bool) (k : string) (v live : tensor Q) (a b c d T : nat) :
  wf_dict state_dict ->
  load_state_dict_loop state_dict_3d center (keys state_dict) state_dict = Ok sd1 ->
  dict_lookup state_dict k = Some v ->
  dict_lookup state_dict_3d k = Some live ->
  shape v = [a; b; c; d] -> shape live = [a; b; T; c; d] ->
  exists w,
    inflate_weight v T center = Ok w /\
    dict_lookup sd1 k = Some w /\
    shape w = shape live.
Proof.
  intros Hwf Hloop Hk Hl Hv Hlive.
  apply loop_ok in Hloop as [_ Hall]; [|exact Hwf|auto].
  destruct (Hall k v Hk) as [Hin _].
  destruct (Hin (lookup_Some_keys _ _ _ Hk)) as (w & Hw & Hsd1).
  unfold entry_after in Hw. rewrite Hl in Hw.
  rewrite shape_eqb_false in Hw by (rewrite Hv, Hlive; discriminate).
  rewrite Hlive in Hw. cbn [length Nat.leb list_index lookup list_lookup] in Hw.
  cbn [mbind result_bind] in Hw.
  exists w. split; [exact Hw|]. split; [exact Hsd1|].
  rewrite Hlive. by apply (inflate_weight_shape v w a b c d T center).
Qed.

Lemma inflated_entry_fits_witness :
  exists w,
    inflate_weight (mkTensor [1; 1; 1; 2] [3; 4]%Q) 2 true = Ok w /\
    dict_lookup
      [ ("patch_embed.proj.weight", mkTensor [1; 1; 2; 1; 2] [0; 0; 3; 4]%Q);
        ("pos_embed", mkTensor [1; 3; 1] [1; 2; 3]%Q);
        ("head.weight", mkTensor [2; 1] [1; 1]%Q);
        ("head.bias", mkTensor [2] [0; 0]%Q) ] "patch_embed.proj.weight"
    = Some w /\
    shape w = shape (mkTensor [1; 1; 2; 1; 2] [0; 0; 0; 0]%Q).
Proof.
  apply (inflated_entry_fits live_example checkpoint_example _ true
           "patch_embed.proj.weight" (mkTensor [1; 1; 1; 2] [3; 4]%Q)
           (mkTensor [1; 1; 2; 1; 2] [0; 0; 0; 0]%Q) 1 1 1 2 2).
  - unfold wf_dict. apply (bool_decide_unpack _). vm_compute. reflexivity.
  - reflexivity.
  - reflexivity.
  - reflexivity.
  - reflexivity.
  - reflexivity.
Defined.

End LoadExtra.

(** ** The encoder: construction and forward pass, further properties *)

Module EncoderExtra.
Import Torch VideoMamba Examples ScheduleSpec.
Local Open Scope Q_scope.

Section Encoder.
Variable triton_imported : bool.
Variable proj_init : list nat -> Q.

(** The block the constructor builds at index [i]. *)
Lemma create_block_value (rms res fused : bool) (i : nat) (dp : Q) :
  rms && negb triton_imported = false ->
  fused && negb triton_imported = false ->
  create_block triton_imported rms res fused i dp
  = Ok (mkBlock i (if rms then RMSNorm else LayerNorm) fused res
                (make_drop_path dp)).
Proof.
  intros H1 H2. unfold create_block, Block_init. rewrite H1, H2. reflexivity.
Qed.

Lemma create_blocks_value (cfg : config) (r : Q) (idxs : list nat) :
  Forall (fun i => (i <= cfg_depth cfg)%nat) idxs ->
  cfg_rms_norm cfg && negb triton_imported = false ->
  cfg_fused_add_norm cfg && negb triton_imported = false ->
  create_blocks triton_imported cfg (0 :: linspace 0 r (cfg_depth cfg)) idxs
  = Ok (map (fun i =>
               mkBlock i (if cfg_rms_norm cfg then RMSNorm else LayerNorm)
                       (cfg_fused_add_norm cfg) (cfg_residual_in_fp32 cfg)
                       (make_drop_path (inter_value r (cfg_depth cfg) i)))
            idxs).
Proof.
  intros Hall H1 H2. induction Hall as [|i idxs Hi _ IH]; cbn [create_blocks map].
  - reflexivity.
  - unfold list_index. rewrite inter_dpr_lookup by assumption.
    cbn [mbind result_bind]. rewrite create_block_value by assumption.
    cbn [mbind result_bind]. rewrite IH. reflexivity.
Qed.

Lemma seq_bounded (n : nat) : Forall (fun i => (i <= n)%nat) (seq 0 n).
Proof. apply Forall_forall. intros i Hi. apply elem_of_seq in Hi. lia. Qed.

Lemma Dropout_init_cases (p : Q) :
  ((p < 0 \/ 1 < p) /\ Dropout_init p = Raise ValueError) \/
  (0 <= p <= 1 /\ Dropout_init p = Ok p).
Proof.
  unfold Dropout_init. destruct (Qlt_le_dec p 0) as [H0 | H0]; [left; auto|].
  destruct (Qlt_le_dec 1 p) as [H1 | H1]; [left; auto|right; auto].
Qed.

(** The four outcomes of the constructor. *)
Lemma init_cases (cfg : config) :
  ((cfg_drop_rate cfg < 0 \/ 1 < cfg_drop_rate cfg) /\
   VisionMamba_init triton_imported proj_init cfg = Raise ValueError) \/
  (0 <= cfg_drop_rate cfg <= 1 /\
   cfg_rms_norm cfg && negb triton_imported = true /\
   VisionMamba_init triton_imported proj_init cfg = Raise TypeError) \/
  (0 <= cfg_drop_rate cfg <= 1 /\
   cfg_rms_norm cfg && negb triton_imported = false /\
   cfg_fused_add_norm cfg && negb triton_imported = true /\
   (1 <= cfg_depth cfg)%nat /\
   VisionMamba_init triton_imported proj_init cfg = Raise AssertionError) \/
  (0 <= cfg_drop_rate cfg <= 1 /\
   cfg_rms_norm cfg && negb triton_imported = false /\
   (cfg_fused_add_norm cfg && negb triton_imported = false \/ cfg_depth cfg = 0%nat) /\
   exists m,
     VisionMamba_init triton_imported proj_init cfg = Ok m /\
     layers m
     = map (fun i =>
              mkBlock i (if cfg_rms_norm cfg then RMSNorm else LayerNorm)
                      (cfg_fused_add_norm cfg) (cfg_residual_in_fp32 cfg)
                      (make_drop_path
                         (inter_value (cfg_drop_path_rate cfg) (cfg_depth cfg) i)))
           (seq 0 (cfg_depth cfg)) /\
     norm_f m = (if cfg_rms_norm cfg then RMSNorm else LayerNorm) /\
     vm_fused_add_norm m = cfg_fused_add_norm cfg /\
     shape (embedding_weight m)
     = [cfg_embed_dim cfg; cfg_output_evo_num_channels cfg] /\
     sequence_length m = cfg_num_tokens cfg /\
     pos_drop m = cfg_drop_rate cfg).
Proof.
  unfold VisionMamba_init.
  destruct (Dropout_init_cases (cfg_drop_rate cfg)) as [[Hp ->] | [Hp ->]];
    [left; auto|right].
  cbn [mbind result_bind].
  destruct (cfg_rms_norm cfg && negb triton_imported) eqn:H1.
  - left. split; [exact Hp|]. split; [reflexivity|].
    destruct (cfg_depth cfg) as [|d]; [reflexivity|].
    cbn [seq create_blocks]. unfold list_index. cbn [lookup list_lookup].
    cbn [mbind result_bind]. unfold create_block. rewrite H1. reflexivity.
  - right. destruct (cfg_fused_add_norm cfg && negb triton_imported) eqn:H2.
    + destruct (cfg_depth cfg) as [|d] eqn:Hd.
      * right. split; [exact Hp|]. split; [reflexivity|]. split; [by right|].
        eexists. split; [reflexivity|]. cbn. auto 7.
      * left. split; [exact Hp|]. split; [reflexivity|]. split; [reflexivity|].
        split; [lia|].
        cbn [seq create_blocks]. unfold list_index. cbn [lookup list_lookup].
        cbn [mbind result_bind]. unfold create_block, Block_init.
        rewrite H1, H2. reflexivity.
    + right. split; [exact Hp|]. split; [reflexivity|]. split; [by left|].
      rewrite (create_blocks_value cfg (cfg_drop_path_rate cfg) _
                 (seq_bounded _) H1 H2).
      cbn [mbind result_bind]. eexists. split; [reflexivity|]. cbn. auto 7.
Qed.


(** X17: a constructed model has [depth] blocks ([get_num_layers]); block
    [i] carries [layer_idx = i], the normalisation chosen by [rms_norm]
    and the [fused_add_norm] and [residual_in_fp32] flags of the
    constructor; the final normalisation is of the same kind. *)
Theorem constructed_layers (cfg : config) (m : VisionMamba) :
  VisionMamba_init triton_imported proj_init cfg = Ok m ->
  get_num_layers m = cfg_depth cfg /\
  (forall i, (i < cfg_depth cfg)%nat ->
     exists b, layers m !! i = Some b /\
       layer_idx b = i /\
       norm b = (if cfg_rms_norm cfg then RMSNorm else LayerNorm) /\
       fused_add_norm b = cfg_fused_add_norm cfg /\
       residual_in_fp32 b = cfg_residual_in_fp32 cfg) /\
  norm_f m = (if cfg_rms_norm cfg then RMSNorm else LayerNorm).
Proof.
  intros Hm.
  destruct (init_cases cfg)
    as [(_ & H) | [(_ & _ & H) | [(_ & _ & _ & _ & H) |
                                  (_ & _ & _ & m' & H & Hl & Hn & _)]]];
    [congruence..|].
  rewrite H in Hm. injection Hm as <-. unfold get_num_layers. rewrite Hl.
  split; [by rewrite length_map, length_seq|]. split; [|exact Hn].
  intros i Hi. rewrite lookup_map, lookup_seq_lt by assumption.
  eexists. split; [reflexivity|]. cbn. auto.
Qed.

Context {IP : Type}.
Variable k : kernels IP.

(** X18: what the forward pass of a constructed model does with an input
    that is not a matrix of [output_evo_num_channels] columns: a scalar or
    an input whose last dimension is not [output_evo_num_channels] is
    refused by the embedding ([RuntimeError]); an input with the right last
    dimension but not two dimensions is refused by the reshape
    ([EinopsError]). *)
Theorem forward_rejects_input (cfg : config) (m : VisionMamba) :
  VisionMamba_init triton_imported proj_init cfg = Ok m ->
  (forall x ip,
     ndim x = 0%nat \/ List.last (shape x) 0%nat <> cfg_output_evo_num_channels cfg ->
     forward triton_imported k m x ip = Raise RuntimeError) /\
  (forall x ip,
     List.last (shape x) 0%nat = cfg_output_evo_num_channels cfg ->
     ndim x <> 0%nat -> ndim x <> 2%nat ->
     forward triton_imported k m x ip = Raise EinopsError).
Proof.
  intros Hm.
  destruct (init_cases cfg)
    as [(_ & H) | [(_ & _ & H) | [(_ & _ & _ & _ & H) |
                                  (_ & _ & _ & m' & H & _ & _ & _ & HW & _)]]];
    [congruence..|].
  rewrite H in Hm. injection Hm as <-.
  split.
  - intros x ip Hx. unfold forward, forward_features, linear. rewrite HW.
    destruct (ndim x =? 0)%nat eqn:E0; [reflexivity|]. cbn [orb].
    destruct Hx as [Hx | Hx]; [apply Nat.eqb_neq in E0; contradiction|].
    apply Nat.eqb_neq in Hx. rewrite Hx. reflexivity.
  - intros x ip Hlast H0 H2. unfold forward, forward_features, linear. rewrite HW.
    apply Nat.eqb_neq in H0. rewrite H0, Hlast, Nat.eqb_refl.
    cbn [orb negb mbind result_bind]. unfold rearrange_bt_c.
    rewrite build_shape.
    assert (Hlen : length (removelast (shape x) ++ [cfg_embed_dim cfg]) <> 2%nat).
    { apply Nat.eqb_neq in H0. unfold ndim in H0, H2.
      destruct (shape x) as [|a s]; [contradiction|].
      rewrite length_app. change (removelast (a :: s)) with (removelast ([a] ++ s)).
      destruct s as [|b s]; [cbn; lia|].
      rewrite removelast_app by discriminate. cbn [length app] in *.
      assert (length (removelast (b :: s)) = length s).
      { clear. revert b. induction s as [|c s IH]; intros b; [reflexivity|].
        change (removelast (b :: c :: s)) with (b :: removelast (c :: s)).
        cbn [length]. by rewrite IH. }
      lia. }
    destruct (removelast (shape x) ++ [cfg_embed_dim cfg]) as [|a [|b [|c s]]];
      try reflexivity. cbn in Hlen. lia.
Qed.

Lemma Block_forward_checkpoint (b : Block) (h : tensor Q) (r : option (tensor Q))
    (ip : option IP) :
  Block_forward triton_imported k b h r ip true
  = Block_forward triton_imported k b h r ip false.
Proof. reflexivity. Qed.

Lemma layers_loop_checkpoint (m : VisionMamba) (uc : bool) (cn : Z)
    (blocks : list Block) :
  forall idx h r ip,
    layers_loop triton_imported k (with_checkpoint m uc cn) idx blocks h r ip
    = layers_loop triton_imported k m idx blocks h r ip.
Proof.
  induction blocks as [|b blocks IH]; intros idx h r ip; cbn [layers_loop];
    [reflexivity|].
  rewrite !Block_forward_checkpoint, !Tauto.if_same.
  destruct (Block_forward triton_imported k b h r ip false) as [[h1 r1]|];
    cbn [mbind result_bind]; [apply IH|reflexivity].
Qed.

(** X19: activation checkpointing does not change what the model
    computes: whatever [use_checkpoint] and [checkpoint_num] are set to,
    the forward pass returns the same tensor, or raises the same error. *)
Theorem checkpoint_flags_transparent (m : VisionMamba) (uc : bool) (cn : Z)
    (x : tensor Q) (ip : option IP) :
  forward triton_imported k (with_checkpoint m uc cn) x ip
  = forward triton_imported k m x ip.
Proof.
  unfold forward, forward_features.
  cbn [with_checkpoint embedding_weight embedding_bias sequence_length pos_drop
       layers vm_fused_add_norm vm_drop_path norm_f vm_residual_in_fp32].
  destruct (linear _ _ x) as [x1|]; cbn [mbind result_bind]; [|reflexivity].
  destruct (rearrange_bt_c x1 _) as [x2|]; cbn [mbind result_bind]; [|reflexivity].
  rewrite layers_loop_checkpoint. reflexivity.
Qed.

(** X20: the check of the fused kernels lives in the blocks, so a model
    with no block (and a [drop_rate] in [[0, 1]], which [nn.Dropout]
    accepts) is constructed with [fused_add_norm] even when the import of
    the kernels failed; its forward pass then fails at the final
    normalisation ([TypeError]), on every input that passes the embedding
    and the reshape. *)
Theorem forward_without_blocks (cfg : config) :
  triton_imported = false -> cfg_depth cfg = 0%nat ->
  cfg_rms_norm cfg = false -> cfg_fused_add_norm cfg = true ->
  0 <= cfg_drop_rate cfg <= 1 ->
  (1 <= cfg_num_tokens cfg)%nat ->
  exists m,
    VisionMamba_init triton_imported proj_init cfg = Ok m /\
    forall x ip B,
      shape x = [B * cfg_num_tokens cfg; cfg_output_evo_num_channels cfg]%nat ->
      forward triton_imported k m x ip = Raise TypeError.
Proof.
  intros Ht Hd Hr Hf Hp HT.
  destruct (init_cases cfg)
    as [(Hq & _) | [(_ & H1 & _) | [(_ & _ & _ & Hd' & _) |
          (_ & _ & _ & m & H & Hl & _ & Hfm & HW & Hseq & _)]]].
  - exfalso. lra.
  - rewrite Hr in H1. discriminate.
  - lia.
  - exists m. split; [exact H|]. intros x ip B Hx.
    unfold forward, forward_features.
    destruct (ForwardSpec.linear_shape _ (embedding_bias m) x _ _ _ HW Hx)
      as (x1 & -> & Hx1).
    cbn [mbind result_bind]. rewrite Hseq.
    destruct (ForwardSpec.rearrange_ok x1 B _ _ Hx1 HT) as (x2 & -> & Hx2).
    cbn [mbind result_bind]. rewrite Hl, Hd. cbn [seq map layers_loop].
    cbn [mbind result_bind]. rewrite Hfm, Hf, Ht. reflexivity.
Qed.

End Encoder.

Lemma constructed_layers_witness :
  get_num_layers small_model = 3%nat /\
  (forall i, (i < 3)%nat ->
     exists b, layers small_model !! i = Some b /\
       layer_idx b = i /\
       norm b = RMSNorm /\
       fused_add_norm b = true /\
       residual_in_fp32 b = true) /\
  norm_f small_model = RMSNorm.
Proof.
  apply (constructed_layers true (fun _ => 1) small_config small_model).
  reflexivity.
Defined.

Lemma forward_rejects_input_witness :
  (forall x ip,
     ndim x = 0%nat \/ List.last (shape x) 0%nat <> 4%nat ->
     forward true identity_kernels small_model x ip = Raise RuntimeError) /\
  (forall x ip,
     List.last (shape x) 0%nat = 4%nat ->
     ndim x <> 0%nat -> ndim x <> 2%nat ->
     forward true identity_kernels small_model x ip = Raise EinopsError).
Proof.
  apply (forward_rejects_input true (fun _ => 1) identity_kernels small_config
           small_model).
  reflexivity.
Defined.

Lemma forward_without_blocks_witness :
  exists m,
    VisionMamba_init false (fun _ => 1) empty_config = Ok m /\
    forall x ip B,
      shape x = [B * 2; 4]%nat ->
      forward false identity_kernels m x ip = Raise TypeError.
Proof.
  apply (forward_without_blocks false (fun _ => 1) identity_kernels empty_config).
  - reflexivity.
  - reflexivity.
  - reflexivity.
  - reflexivity.
  - cbn. lra.
  - cbn. lia.
Defined.

End EncoderExtra.
